(** * ClusterHealthz: the health evaluation engine of [server.py]

    A shallow embedding of the class [ClusterHealthz] and of the [/healthz]
    route of [server.py], followed by the properties of the engine:
    configuration load and reload, the fetch / decode / evaluate cycle and the
    stored verdict.

    The Python object is a record of its attributes; a method is a function in
    a state-and-exception monad over that record; the three things the engine
    reaches outside itself for (the file system, the HTTP client and the JSON
    decoder) are the fields of a record [world] every method is given. *)

From Stdlib Require Import ZArith Ascii String.
From Stdlib Require Import Floats.SpecFloat.
From stdpp Require Import base option strings list gmap.

Set Warnings "-register-all".

Local Open Scope string_scope.

(** ** Python values

    The objects the engine handles are what [json.loads] can return and what
    the tests pass to [process_configuration]: [None], booleans, integers,
    floats (binary64, as [spec_float]), strings, lists and dictionaries with
    string keys. *)

Inductive value : Type :=
| VNone
| VBool (b : bool)
| VInt (z : Z)
| VFloat (f : spec_float)
| VStr (s : string)
| VList (l : list value)
| VDict (d : gmap string value).

(** Exceptions, by class.  A subclass that no handler of [server.py] tells
    apart from its parent is identified with the class the handler names;
    [OtherException] stands for every class no handler names. *)

Inductive exn : Type :=
| FileNotFoundError
| SystemExit (code : Z)
| TypeError
| KeyError (key : string)
| AttributeError (attr : string)
| JSONDecodeError
| gaierror
| ConnectionError
| OtherException (name : string).

Inductive result (A : Type) : Type :=
| Return (a : A)
| Raise (e : exn).
Arguments Return {A} a.
Arguments Raise {A} e.

(** [bool(v)]: the truth value Python's [if v:] tests. *)
Definition truthy (v : value) : bool :=
  match v with
  | VNone => false
  | VBool b => b
  | VInt z => negb (z =? 0)%Z
  | VFloat f => match f with S754_zero _ => false | _ => true end
  | VStr s => negb (String.eqb s EmptyString)
  | VList l => match l with [] => false | _ => true end
  | VDict d => negb (Nat.eqb (size d) 0)
  end.

(** [v[k]] for a string subscript [k]. *)
Definition subscript (v : value) (k : string) : result value :=
  match v with
  | VDict d => match d !! k with
               | Some x => Return x
               | None => Raise (KeyError k)
               end
  | _ => Raise TypeError
  end.

(** A string is UTF-8 text; its characters are its code points: a byte
    together with the continuation bytes after it. *)
Definition is_continuation (a : ascii) : bool :=
  (128 <=? N_of_ascii a)%N && (N_of_ascii a <? 192)%N.

Fixpoint code_points (s : string) : list string :=
  match s with
  | EmptyString => []
  | String a s' =>
      let cps := code_points s' in
      match s' with
      | String b _ =>
          if is_continuation b then
            match cps with
            | c :: cs => String a c :: cs
            | [] => [String a EmptyString]
            end
          else String a EmptyString :: cps
      | EmptyString => [String a EmptyString]
      end
  end.

(** [len(v)]. *)
Definition len (v : value) : result nat :=
  match v with
  | VStr s => Return (length (code_points s))
  | VList l => Return (length l)
  | VDict d => Return (size d)
  | _ => Raise TypeError
  end.

(** The items a [for x in v] loop visits: the elements of a list, the keys
    of a dictionary, the characters of a string.  (The keys come in the
    order of the map, not in the order of insertion; the engine subscripts
    each item with a string, which fails alike on every key.) *)
Definition iter (v : value) : result (list value) :=
  match v with
  | VStr s => Return (VStr <$> code_points s)
  | VList l => Return l
  | VDict d => Return (VStr <$> (map_to_list d).*1)
  | _ => Raise TypeError
  end.

(** [x == v] for a string [x]. *)
Definition str_eq (x : string) (v : value) : bool :=
  match v with
  | VStr s => String.eqb x s
  | _ => false
  end.

(** [x in l] for a string [x] and a list [l]. *)
Definition str_in (x : string) (l : list value) : bool :=
  existsb (str_eq x) l.

(** ** [str.strip]

    [s.strip(chars)] drops from both ends of [s] the characters that occur
    in [chars]. *)

Fixpoint mem_ascii (a : ascii) (cs : string) : bool :=
  match cs with
  | EmptyString => false
  | String c cs' => Ascii.eqb a c || mem_ascii a cs'
  end.

Fixpoint lstrip (cs s : string) : string :=
  match s with
  | EmptyString => EmptyString
  | String a s' => if mem_ascii a cs then lstrip cs s' else s
  end.

Fixpoint rstrip (cs s : string) : string :=
  match s with
  | EmptyString => EmptyString
  | String a s' =>
      match rstrip cs s' with
      | EmptyString => if mem_ascii a cs then EmptyString
                       else String a EmptyString
      | r => String a r
      end
  end.

Definition strip (cs s : string) : string := rstrip cs (lstrip cs s).

(** Predicates on strings to say what [strip] returns: every character of
    [s] is in [cs], none is, the first is, the last is. *)

Fixpoint all_in (cs s : string) : bool :=
  match s with
  | EmptyString => true
  | String a s' => mem_ascii a cs && all_in cs s'
  end.

Fixpoint none_in (cs s : string) : bool :=
  match s with
  | EmptyString => true
  | String a s' => negb (mem_ascii a cs) && none_in cs s'
  end.

Definition first_in (cs s : string) : bool :=
  match s with
  | EmptyString => false
  | String a _ => mem_ascii a cs
  end.

Fixpoint last_in (cs s : string) : bool :=
  match s with
  | EmptyString => false
  | String a EmptyString => mem_ascii a cs
  | String _ s' => last_in cs s'
  end.

(** The one-character string ['\n']. *)
Definition NL : string := String "010"%char EmptyString.

(** [v.strip(cs)]: only a string has the method. *)
Definition value_strip (cs : string) (v : value) : result string :=
  match v with
  | VStr s => Return (strip cs s)
  | _ => Raise (AttributeError "strip")
  end.

(** ** [json.loads]

    A decoder for JSON text after CPython's [json] module: [scan_once] with
    [JSONObject], [JSONArray], [scanstring] and the number pattern, then the
    check that only whitespace follows.  Strings are UTF-8 text.  Three
    errors leave it: [JSONDecodeError] for text that is not JSON,
    [RecursionError] for containers nested deeper than the interpreter
    allows, and [ValueError] for an integer of more digits than [int]
    converts (CPython 3.11 and later).  Recursion is on a fuel that [loads]
    takes from the length of the text. *)

Module json.

Definition is_ws (a : ascii) : bool :=
  match N_of_ascii a with
  | 32 | 9 | 10 | 13 => true
  | _ => false
  end%N.

Fixpoint skip_ws (s : string) : string :=
  match s with
  | String a s' => if is_ws a then skip_ws s' else s
  | EmptyString => EmptyString
  end.

Fixpoint strip_prefix (p s : string) : option string :=
  match p with
  | EmptyString => Some s
  | String a p' =>
      match s with
      | String b s' => if Ascii.eqb a b then strip_prefix p' s' else None
      | EmptyString => None
      end
  end.

Definition is_digit (a : ascii) : bool :=
  (48 <=? N_of_ascii a)%N && (N_of_ascii a <=? 57)%N.

Fixpoint take_digits (s : string) : string * string :=
  match s with
  | String a s' =>
      if is_digit a then
        let (ds, r) := take_digits s' in (String a ds, r)
      else (EmptyString, s)
  | EmptyString => (EmptyString, EmptyString)
  end.

Fixpoint Z_of_digits (acc : Z) (ds : string) : Z :=
  match ds with
  | String a ds' => Z_of_digits (10 * acc + (Z.of_N (N_of_ascii a) - 48)) ds'
  | EmptyString => acc
  end.

(** [float(text)] for the decimal [m * 10 ^ e] with [0 <= m]: the nearest
    binary64, ties to even. *)
Definition float_of_decimal (neg : bool) (m e : Z) : spec_float :=
  match m with
  | Zpos p =>
      if (0 <=? e)%Z then
        binary_normalize 53 1024 (if neg then - (m * 10 ^ e) else m * 10 ^ e) 0
          false
      else
        SFdiv 53 1024 (S754_finite neg p 0)
          (S754_finite false (Z.to_pos (10 ^ (- e))) 0)
  | _ => S754_zero neg
  end.

(** The number pattern: an optional minus sign, then [0] or a digit from 1
    to 9 followed by digits; optionally a dot followed by digits; optionally
    [e] or [E], an optional sign and digits.  An [int] when neither a
    fraction nor an exponent matched, a [float] otherwise. *)
Definition int_max_str_digits : nat := 4300.

Definition match_number (s : string) : option (result value * string) :=
  let (neg, s1) :=
    match s with
    | String "-" r => (true, r)
    | _ => (false, s)
    end in
  let integer :=
    match s1 with
    | String "0" r => Some ("0", r)
    | String a _ => if is_digit a then Some (take_digits s1) else None
    | EmptyString => None
    end in
  match integer with
  | None => None
  | Some (ds, r1) =>
      let (frac, r2) :=
        match r1 with
        | String "." r =>
            match take_digits r with
            | (EmptyString, _) => (None, r1)
            | (fs, r') => (Some fs, r')
            end
        | _ => (None, r1)
        end in
      let (exp, r3) :=
        match r2 with
        | String c r =>
            if Ascii.eqb c "e" || Ascii.eqb c "E" then
              let (eneg, r') :=
                match r with
                | String "-" r' => (true, r')
                | String "+" r' => (false, r')
                | _ => (false, r)
                end in
              match take_digits r' with
              | (EmptyString, _) => (None, r2)
              | (es, r'') =>
                  (Some (if eneg then - Z_of_digits 0 es else Z_of_digits 0 es)%Z,
                   r'')
              end
            else (None, r2)
        | EmptyString => (None, r2)
        end in
      match frac, exp with
      | None, None =>
          if Nat.ltb int_max_str_digits (String.length ds) then
            Some (Raise (OtherException "ValueError"), r3)
          else
            Some (Return (VInt (if neg then - Z_of_digits 0 ds
                                else Z_of_digits 0 ds)), r3)
      | _, _ =>
          let fs := default EmptyString frac in
          let m := Z_of_digits 0 (ds ++ fs) in
          let e := (default 0 exp - Z.of_nat (String.length fs))%Z in
          Some (Return (VFloat (float_of_decimal neg m e)), r3)
      end
  end.

Definition hex_digit (a : ascii) : option N :=
  let n := N_of_ascii a in
  if (48 <=? n)%N && (n <=? 57)%N then Some (n - 48)%N
  else if (97 <=? n)%N && (n <=? 102)%N then Some (n - 87)%N
  else if (65 <=? n)%N && (n <=? 70)%N then Some (n - 55)%N
  else None.

(** The four hexadecimal digits after [\u]. *)
Definition decode_uXXXX (s : string) : option (N * string) :=
  match s with
  | String a (String b (String c (String d r))) =>
      match hex_digit a, hex_digit b, hex_digit c, hex_digit d with
      | Some x, Some y, Some z, Some t =>
          Some (((x * 16 + y) * 16 + z) * 16 + t, r)%N
      | _, _, _, _ => None
      end
  | _ => None
  end.

Definition byte (n : N) : string := String (ascii_of_N n) EmptyString.

(** The UTF-8 bytes of a code point. *)
Definition utf8 (cp : N) : string :=
  (if cp <? 128 then byte cp
   else if cp <? 2048 then
     byte (192 + cp / 64) ++ byte (128 + cp mod 64)
   else if cp <? 65536 then
     byte (224 + cp / 4096) ++ byte (128 + (cp / 64) mod 64)
       ++ byte (128 + cp mod 64)
   else
     byte (240 + cp / 262144) ++ byte (128 + (cp / 4096) mod 64)
       ++ byte (128 + (cp / 64) mod 64) ++ byte (128 + cp mod 64))%N.

Definition dquote : ascii := ascii_of_N 34.

Definition backslash (c : ascii) : option string :=
  match N_of_ascii c with
  | 34 => Some (byte 34)
  | 92 => Some (byte 92)
  | 47 => Some (byte 47)
  | 98 => Some (byte 8)
  | 102 => Some (byte 12)
  | 110 => Some (byte 10)
  | 114 => Some (byte 13)
  | 116 => Some (byte 9)
  | _ => None
  end%N.

(** The text of a string literal whose opening quote has been read, and
    what follows its closing quote. *)
Fixpoint scanstring (fuel : nat) (s : string) : option (string * string) :=
  match fuel with
  | O => None
  | S fuel' =>
      match s with
      | EmptyString => None
      | String a s' =>
          if Ascii.eqb a dquote then Some (EmptyString, s')
          else if Ascii.eqb a "\" then
            match s' with
            | EmptyString => None
            | String c s'' =>
                match backslash c with
                | Some b =>
                    '(t, r) ← scanstring fuel' s''; Some (b ++ t, r)
                | None =>
                    if Ascii.eqb c "u" then
                      '(uni, r) ← decode_uXXXX s'';
                      let pair :=
                        if (55296 <=? uni)%N && (uni <=? 56319)%N then
                          match r with
                          | String "\" (String "u" r') =>
                              match decode_uXXXX r' with
                              | Some (uni2, r'') =>
                                  if (56320 <=? uni2)%N && (uni2 <=? 57343)%N
                                  then Some (65536 + (uni - 55296) * 1024
                                             + (uni2 - 56320), r'')%N
                                  else Some (uni, r)
                              | None => None
                              end
                          | _ => Some (uni, r)
                          end
                        else Some (uni, r) in
                      '(cp, r1) ← pair;
                      '(t, r2) ← scanstring fuel' r1; Some (utf8 cp ++ t, r2)
                    else None
                end
            end
          else if (N_of_ascii a <? 32)%N then None
          else '(t, r) ← scanstring fuel' s'; Some (String a t, r)
      end
  end.

Definition constant (s : string) : option (value * string) :=
  match strip_prefix "NaN" s with
  | Some r => Some (VFloat S754_nan, r)
  | None =>
      match strip_prefix "Infinity" s with
      | Some r => Some (VFloat (S754_infinity false), r)
      | None =>
          match strip_prefix "-Infinity" s with
          | Some r => Some (VFloat (S754_infinity true), r)
          | None => None
          end
      end
  end.

(** The value at the head of [s] and what follows it.  [depth] is the
    number of containers that may still be opened inside one another. *)
Fixpoint scan_once (fuel depth : nat) (s : string) : result (value * string) :=
  match fuel with
  | O => Raise JSONDecodeError
  | S fuel' =>
      match s with
      | EmptyString => Raise JSONDecodeError
      | String c r =>
          if Ascii.eqb c dquote then
            match scanstring (String.length r) r with
            | Some (t, r') => Return (VStr t, r')
            | None => Raise JSONDecodeError
            end
          else if Ascii.eqb c "{" then
            match depth with
            | O => Raise (OtherException "RecursionError")
            | S depth' =>
                match skip_ws r with
                | String "}" r' => Return (VDict ∅, r')
                | r' =>
                    match JSONObject fuel' depth' r' ∅ with
                    | Return (d, r'') => Return (VDict d, r'')
                    | Raise e => Raise e
                    end
                end
            end
          else if Ascii.eqb c "[" then
            match depth with
            | O => Raise (OtherException "RecursionError")
            | S depth' =>
                match skip_ws r with
                | String "]" r' => Return (VList [], r')
                | r' =>
                    match JSONArray fuel' depth' r' with
                    | Return (l, r'') => Return (VList l, r'')
                    | Raise e => Raise e
                    end
                end
            end
          else
            match strip_prefix "null" s with
            | Some r' => Return (VNone, r')
            | None =>
            match strip_prefix "true" s with
            | Some r' => Return (VBool true, r')
            | None =>
            match strip_prefix "false" s with
            | Some r' => Return (VBool false, r')
            | None =>
            match match_number s with
            | Some (Return n, r') => Return (n, r')
            | Some (Raise e, _) => Raise e
            | None =>
                match constant s with
                | Some n => Return n
                | None => Raise JSONDecodeError
                end
            end end end end
      end
  end

(** The pairs of an object from its first key on; a later pair replaces an
    earlier one with the same key. *)
with JSONObject (fuel depth : nat) (s : string) (pairs : gmap string value)
  : result (gmap string value * string) :=
  match fuel with
  | O => Raise JSONDecodeError
  | S fuel' =>
      match s with
      | String c r =>
          if Ascii.eqb c dquote then
            match scanstring (String.length r) r with
            | Some (key, r1) =>
                match skip_ws r1 with
                | String ":" r2 =>
                    match scan_once fuel' depth (skip_ws r2) with
                    | Return (v, r3) =>
                        match skip_ws r3 with
                        | String "}" r4 => Return (<[key := v]> pairs, r4)
                        | String "," r4 =>
                            JSONObject fuel' depth (skip_ws r4)
                              (<[key := v]> pairs)
                        | _ => Raise JSONDecodeError
                        end
                    | Raise e => Raise e
                    end
                | _ => Raise JSONDecodeError
                end
            | None => Raise JSONDecodeError
            end
          else Raise JSONDecodeError
      | EmptyString => Raise JSONDecodeError
      end
  end

(** The items of an array from its first item on. *)
with JSONArray (fuel depth : nat) (s : string) : result (list value * string) :=
  match fuel with
  | O => Raise JSONDecodeError
  | S fuel' =>
      match scan_once fuel' depth s with
      | Return (v, r) =>
          match skip_ws r with
          | String "]" r' => Return ([v], r')
          | String "," r' =>
              match JSONArray fuel' depth (skip_ws r') with
              | Return (vs, r'') => Return (v :: vs, r'')
              | Raise e => Raise e
              end
          | _ => Raise JSONDecodeError
          end
      | Raise e => Raise e
      end
  end.

(** [json.loads(s)] in an interpreter that lets the decoder open [limit]
    containers inside one another. *)
Definition loads_within (limit : nat) (s : string) : result value :=
  match strip_prefix (utf8 65279) s with
  | Some _ => Raise JSONDecodeError
  | None =>
      match scan_once (2 * String.length s + 2) limit (skip_ws s) with
      | Return (v, r) =>
          match skip_ws r with
          | EmptyString => Return v
          | _ => Raise JSONDecodeError
          end
      | Raise e => Raise e
      end
  end.

(** The depth at which CPython raises [RecursionError] depends on the
    interpreter and on the stack at the call; [loads] takes it to be the
    default of [sys.getrecursionlimit()]. *)
Definition recursion_limit : nat := 1000.

(** [json.loads(s)]. *)
Definition loads (s : string) : result value :=
  loads_within recursion_limit s.

End json.

(** ** Logging

    A record of the [logging] calls: the level, the message text and, where
    the source formats an argument into it, that argument. *)

Inductive level : Type := INFO | WARNING | CRITICAL.

Inductive log_arg : Type :=
| NoArg
| Arg (v : value)
| ArgType (v : value).

Record log_record : Type := LogRecord {
  log_level : level;
  log_text : string;
  log_argument : log_arg
}.

(** ** The instance and the process around it

    An attribute is unset ([None]) until a method has assigned it; [sighup]
    tells whether [signal_handler] is installed for SIGHUP; [log] is what
    the process has logged so far. *)

Record state : Type := State {
  prometheus_url : option string;
  alerts : option (list string);
  _status : option string;
  sighup : bool;
  log : list log_record
}.

(** What lies outside the engine, each with the exception it can raise:
    [os.getcwd()], [open(path, 'r')] followed by [readlines()],
    [requests.get(url)] seen through the [text] of its response,
    [json.loads], and [signal.signal(signal.SIGHUP, handler)] (which raises
    [ValueError] outside the main thread). *)

Record world : Type := World {
  getcwd : result string;
  readlines : string -> result (list string);
  requests_get : string -> result string;
  json_loads : string -> result value;
  signal_signal : result unit
}.

(** ** The monad of methods *)

Definition M (A : Type) : Type := state -> result A * state.

Definition ret {A} (a : A) : M A := fun st => (Return a, st).

Definition raise {A} (e : exn) : M A := fun st => (Raise e, st).

Definition bind {A B} (m : M A) (k : A -> M B) : M B :=
  fun st =>
    match m st with
    | (Return a, st') => k a st'
    | (Raise e, st') => (Raise e, st')
    end.

Definition lift {A} (r : result A) : M A := fun st => (r, st).

(** [try: body / except ...:], the handler telling which classes it takes. *)
Definition try_except {A} (body : M A) (handler : exn -> option (M A)) : M A :=
  fun st =>
    match body st with
    | (Return a, st') => (Return a, st')
    | (Raise e, st') =>
        match handler e with
        | Some h => h st'
        | None => (Raise e, st')
        end
    end.

Declare Scope method_scope.
Delimit Scope method_scope with method.
Bind Scope method_scope with M.
Notation "x ← y ; z" := (bind y (fun x => z))
  (at level 20, y at level 100, z at level 200, only parsing) : method_scope.
Notation "x ;; z" := (bind x (fun _ => z))
  (at level 100, z at level 200, only parsing, right associativity)
  : method_scope.
Local Open Scope method_scope.

(** The state after one more record has been logged. *)
Definition logged (r : log_record) (st : state) : state :=
  State (prometheus_url st) (alerts st) (_status st) (sighup st)
    (log st ++ [r]).

Definition logging (lv : level) (text : string) (a : log_arg) : M unit :=
  fun st => (Return tt, logged (LogRecord lv text a) st).

Definition sys_exit {A} (code : Z) : M A := raise (SystemExit code).

(** Attribute access on [self]: reading an attribute that was never assigned
    raises [AttributeError]. *)

Definition getattr {A} (name : string) (field : state -> option A) : M A :=
  fun st =>
    match field st with
    | Some a => (Return a, st)
    | None => (Raise (AttributeError name), st)
    end.

(** The state after [self.status = v]. *)
Definition with_status (v : string) (st : state) : state :=
  State (prometheus_url st) (alerts st) (Some v) (sighup st) (log st).

(** The state after [self.alerts = v]. *)
Definition with_alerts (v : list string) (st : state) : state :=
  State (prometheus_url st) (Some v) (_status st) (sighup st) (log st).

Definition set_prometheus_url (v : string) : M unit :=
  fun st =>
    (Return tt, State (Some v) (alerts st) (_status st) (sighup st) (log st)).

Definition set_alerts (v : list string) : M unit :=
  fun st => (Return tt, with_alerts v st).

(** The state after [self.signal = ...], the handler being installed. *)
Definition set_signal : M unit :=
  fun st =>
    (Return tt,
     State (prometheus_url st) (alerts st) (_status st) true (log st)).

(** The [status] property: its getter and its setter. *)

Definition status : M string := getattr "_status" _status.

Definition set_status (v : string) : M unit :=
  fun st => (Return tt, with_status v st).

(** The object before its constructor has run. *)
Definition new : state := State None None None false [].

(** The [text] of the response bound to the local [alerts] of
    [get_prometheus_alerts]; [None] has no such attribute. *)
Definition response_text (r : option string) : M string :=
  match r with
  | Some t => ret t
  | None => raise (AttributeError "text")
  end.

(** [[x.strip('\n') for x in config_contents]]. *)
Fixpoint strip_each (xs : list value) : result (list string) :=
  match xs with
  | [] => Return []
  | x :: xs' =>
      match value_strip NL x with
      | Return s =>
          match strip_each xs' with
          | Return ss => Return (s :: ss)
          | Raise e => Raise e
          end
      | Raise e => Raise e
      end
  end.

(** The loop of [process_prometheus_alerts] that fills [active_alert_names]
    with [alert['metric']['alertname']] for each [alert]. *)
Fixpoint alert_names (items : list value) : result (list value) :=
  match items with
  | [] => Return []
  | alert :: items' =>
      match subscript alert "metric" with
      | Return metric =>
          match subscript metric "alertname" with
          | Return name =>
              match alert_names items' with
              | Return names => Return (name :: names)
              | Raise e => Raise e
              end
          | Raise e => Raise e
          end
      | Raise e => Raise e
      end
  end.

Definition default_prometheus_url : string :=
  "service-prometheus.monitoring:9090".

(** ** The methods of [ClusterHealthz] *)

Section Methods.

Variable w : world.

Definition process_configuration (config_contents : value) : M unit :=
  match config_contents with
  | VList xs =>
      config_contents' ← lift (strip_each xs);
      logging INFO "Setting cluster critical alarms to: {}"
        (Arg (VList (VStr <$> config_contents'))) ;;
      set_alerts config_contents'
  | _ =>
      logging CRITICAL
        "Process configuration is expects list but received {}"
        (ArgType config_contents) ;;
      raise TypeError
  end.

Definition open_configuration (alert_configuration_path : option string)
  : M unit :=
  logging INFO "Attempting to open the alert configuration" NoArg ;;
  alert_configuration_path ←
    match alert_configuration_path with
    | Some path =>
        if truthy (VStr path) then ret path
        else cwd ← lift (getcwd w); ret (cwd ++ "/config/clusterhealthz.conf")
    | None => cwd ← lift (getcwd w); ret (cwd ++ "/config/clusterhealthz.conf")
    end;
  config_contents ←
    try_except (lift (readlines w alert_configuration_path))
      (fun e =>
         match e with
         | FileNotFoundError =>
             Some (logging CRITICAL "Could not find the configuration file"
                     NoArg ;;
                   sys_exit 1)
         | _ => None
         end);
  process_configuration (VList (VStr <$> config_contents)).

Definition signal_handler : M unit :=
  logging INFO
    "SIGHUP Received and handled. Will attempt to reload the alert configuration"
    NoArg ;;
  open_configuration None.

Definition __init__ (url : string) : M unit :=
  logging INFO "Starting ClusterHealthz" NoArg ;;
  set_prometheus_url url ;;
  open_configuration None ;;
  set_status "unhealthy" ;;
  lift (signal_signal w) ;;
  set_signal.

(** The local [alerts] starts as [None].  The handler of [socket.gaierror]
    ends without a [return], so control goes on to [return alerts.text]
    ([inl], with [alerts] still [None]); the handler of
    [requests.ConnectionError] returns [None] itself ([inr]). *)
Definition get_prometheus_alerts : M (option string) :=
  let alerts : option string := None in
  url ← getattr "prometheus_url" prometheus_url;
  let alert_path := "http://" ++ url ++ "/api/v1/query?query=ALERTS" in
  r ← try_except
        (t ← lift (requests_get w alert_path); ret (inl (Some t)))
        (fun e =>
           match e with
           | gaierror =>
               Some (logging CRITICAL "Could not resolve Prometheus in DNS"
                       NoArg ;;
                     set_status "unhealthy" ;;
                     ret (inl alerts))
           | ConnectionError =>
               Some (logging CRITICAL
                       "Could not get the alert data from Prometheus. Path tried was {}"
                       (Arg (VStr alert_path)) ;;
                     set_status "unhealthy" ;;
                     ret (inr None))
           | _ => None
           end);
  match r with
  | inr returned => ret returned
  | inl alerts => t ← response_text alerts; ret (Some t)
  end.

(** Returns the decoded object, or [None] after a [JSONDecodeError]. *)
Definition json_prometheus_response (prometheus_string : string) : M value :=
  try_except (lift (json_loads w prometheus_string))
    (fun e =>
       match e with
       | JSONDecodeError =>
           Some (logging CRITICAL
                   "JSONDecodeError of the response from Prometheus" NoArg ;;
                 set_status "unhealthy" ;;
                 ret VNone)
       | _ => None
       end).

Definition process_prometheus_alerts (prometheus_query : value) : M unit :=
  data ← lift (subscript prometheus_query "data");
  result ← lift (subscript data "result");
  n ← lift (len result);
  if Nat.eqb n 0 then
    logging INFO "No alerts in Prometheus" NoArg ;;
    set_status "healthy"
  else
    data ← lift (subscript prometheus_query "data");
    result ← lift (subscript data "result");
    items ← lift (iter result);
    active_alert_names ← lift (alert_names items);
    alerts ← getattr "alerts" alerts;
    if existsb (fun x => str_in x active_alert_names) alerts then
      logging WARNING "Alert condition detected. Setting to unhealthy" NoArg ;;
      logging WARNING "Active alerts: {}" (Arg (VList active_alert_names)) ;;
      set_status "unhealthy"
    else
      logging WARNING "Alerts found but did not match any of: {}"
        (Arg (VList (VStr <$> alerts))) ;;
      logging WARNING "Active alerts are {}"
        (Arg (VList active_alert_names)) ;;
      set_status "healthy".

Definition start : M unit :=
  prometheus_query ← get_prometheus_alerts;
  match prometheus_query with
  | Some text =>
      if truthy (VStr text) then
        prometheus_alerts_json ← json_prometheus_response text;
        if truthy prometheus_alerts_json then
          process_prometheus_alerts prometheus_alerts_json
        else ret tt
      else
        logging CRITICAL "Could not get alerts from Prometheus" NoArg
  | None =>
      logging CRITICAL "Could not get alerts from Prometheus" NoArg
  end.

(** The [/healthz] route: one cycle, then the stored verdict. *)
Definition return_status : M string :=
  start ;;
  status.

End Methods.

(** The URL [get_prometheus_alerts] asks for. *)
Definition alert_path (url : string) : string :=
  "http://" ++ url ++ "/api/v1/query?query=ALERTS".

(** The configuration [open_configuration] reads when it is given no path,
    where the working directory can be had. *)
Definition default_configuration (w : world) : result string :=
  match getcwd w with
  | Return cwd => Return (cwd ++ "/config/clusterhealthz.conf")
  | Raise e => Raise e
  end.

(** The configuration [open_configuration] reads when it is given [p]. *)
Definition opened_path (w : world) (p : option string) : result string :=
  match p with
  | Some path =>
      if truthy (VStr path) then Return path else default_configuration w
  | None => default_configuration w
  end.

(** ** The life of an instance

    What can happen to a constructed instance: a SIGHUP is delivered (once
    the handler is installed), or one of its methods or the route is
    called, each in the world of that moment. *)

Inductive call : Type :=
| SIGHUP
| OpenConfiguration (alert_configuration_path : option string)
| ProcessConfiguration (config_contents : value)
| Start
| GetPrometheusAlerts
| JsonPrometheusResponse (prometheus_string : string)
| ProcessPrometheusAlerts (prometheus_query : value)
| ReturnStatus.

Inductive step (w : world) : call -> state -> state -> Prop :=
| step_sighup st :
    sighup st = true ->
    step w SIGHUP st (signal_handler w st).2
| step_open_configuration p st :
    step w (OpenConfiguration p) st (open_configuration w p st).2
| step_process_configuration c st :
    step w (ProcessConfiguration c) st (process_configuration c st).2
| step_start st :
    step w Start st (start w st).2
| step_get_prometheus_alerts st :
    step w GetPrometheusAlerts st (get_prometheus_alerts w st).2
| step_json_prometheus_response s st :
    step w (JsonPrometheusResponse s) st (json_prometheus_response w s st).2
| step_process_prometheus_alerts q st :
    step w (ProcessPrometheusAlerts q) st (process_prometheus_alerts q st).2
| step_return_status st :
    step w ReturnStatus st (return_status w st).2.

(** The calls that belong to configuration. *)
Definition configuration_call (c : call) : Prop :=
  match c with
  | SIGHUP | OpenConfiguration _ | ProcessConfiguration _ => True
  | _ => False
  end.

(** A call that is an evaluation and runs to its end: [start], the
    evaluation itself, or the route, returning. *)
Definition completes_cycle (w : world) (c : call) (st : state) : Prop :=
  match c with
  | Start => (start w st).1 = Return tt
  | ProcessPrometheusAlerts q => (process_prometheus_alerts q st).1 = Return tt
  | ReturnStatus => exists v, (return_status w st).1 = Return v
  | _ => False
  end.

(** The states an instance can be in after its constructor has returned and
    calls have been made on it, each call [c] in a world [w] and a state
    [st] that satisfy [allowed w c st]. *)
Inductive reachable (allowed : world -> call -> state -> Prop)
  : state -> Prop :=
| reachable_init w url st :
    __init__ w url new = (Return tt, st) ->
    reachable allowed st
| reachable_step w c st st' :
    reachable allowed st ->
    allowed w c st ->
    step w c st st' ->
    reachable allowed st'.

Definition any_call (w : world) (c : call) (st : state) : Prop := True.

Definition before_first_cycle (w : world) (c : call) (st : state) : Prop :=
  ~ completes_cycle w c st.

(** The stored verdict is one of the two verdicts. *)
Definition verdict (st : state) : Prop :=
  _status st = Some "healthy" \/ _status st = Some "unhealthy".

(** A method that leaves the attribute [f] as it is, whether it returns or
    raises. *)
Definition keeps {A B} (f : state -> B) (m : M A) : Prop :=
  forall st, f (m st).2 = f st.

(** Every attribute of the instance is set and the handler is installed. *)
Definition constructed (st : state) : Prop :=
  is_Some (prometheus_url st) /\ is_Some (alerts st)
  /\ is_Some (_status st) /\ sighup st = true.

(** A method that leaves the stored verdict as it is or sets it to
    unhealthy. *)
Definition fails_closed {A} (m : M A) : Prop :=
  forall st,
    _status (m st).2 = _status st \/ _status (m st).2 = Some "unhealthy".

(** A method that leaves the stored verdict as it is, sets it to unhealthy,
    or sets it to healthy and returns. *)
Definition publishes {A} (m : M A) : Prop :=
  forall st,
    _status (m st).2 = _status st
    \/ _status (m st).2 = Some "unhealthy"
    \/ (_status (m st).2 = Some "healthy" /\ exists a, (m st).1 = Return a).

(** ** The shapes the specification names *)

(** The watch list as the specification words it: the entries are the
    non-empty trimmed lines, none twice, in the order of the source. *)
Definition watch_list_of (lines wl : list string) : Prop :=
  (forall e, e ∈ wl <->
             e <> EmptyString /\ exists l, l ∈ lines /\ e = strip NL l)
  /\ NoDup wl
  /\ wl `sublist_of` (strip NL <$> lines).

(** A record of the result list: a dictionary whose ["metric"] is a
    dictionary with an ["alertname"]. *)
Definition alert_record (a : value) : bool :=
  match a with
  | VDict d =>
      match d !! "metric" with
      | Some (VDict m) => bool_decide (is_Some (m !! "alertname"))
      | _ => false
      end
  | _ => false
  end.

(** The name of a firing-alert record: the ["alertname"] of its
    ["metric"]. *)
Definition name_of (a : value) : option value :=
  match a with
  | VDict d =>
      match d !! "metric" with
      | Some (VDict m) => m !! "alertname"
      | _ => None
      end
  | _ => None
  end.

(** The names in the firing list [rs] and the entries of the watch list
    [wl] meet: some entry is the name of some record. *)
Definition firing_watched (wl : list string) (rs : list value) : Prop :=
  exists x a, x ∈ wl /\ a ∈ rs /\ name_of a = Some (VStr x).



(** The ["result"] of the ["data"] of a payload, where the payload has
    both. *)
Definition result_of (q : value) : option value :=
  match q with
  | VDict d =>
      match d !! "data" with
      | Some (VDict dd) => dd !! "result"
      | _ => None
      end
  | _ => None
  end.

(** The nested shape of the feed: a dictionary whose ["data"] is a
    dictionary whose ["result"] is a list of alert records. *)
Definition well_shaped (q : value) : bool :=
  match result_of q with
  | Some (VList rs) => forallb alert_record rs
  | _ => false
  end.

(** The errors of subscripting, measuring and iterating. *)
Definition shape_error (e : exn) : Prop :=
  e = TypeError \/ exists k, e = KeyError k.

(** ** The fixtures of the test suite *)

(** JSON text written with apostrophes for its double quotes. *)
Fixpoint quoted (s : string) : string :=
  match s with
  | String a s' =>
      String (if Ascii.eqb a "'" then json.dquote else a) (quoted s')
  | EmptyString => EmptyString
  end.

Definition valid_prometheus_alerts_non_impacting : string :=
  quoted
    ("{'status':'success','data':{'resultType':'vector','result':[{'"
     ++ "metric':{'__name__':'ALERTS','alertname':'ExampleAlertAlwaysFirin"
     ++ "g','alertstate':'firing','job':'alertmanager'},'value':[150642265"
     ++ "6.757,'1']},{'metric':{'__name__':'ALERTS','alertname':'ExampleAl"
     ++ "ertAlwaysFiring','alertstate':'firing','job':'node'},'value':[150"
     ++ "6422656.757,'1']},{'metric':{'__name__':'ALERTS','alertname':'Exa"
     ++ "mpleAlertAlwaysFiring','alertstate':'firing','job':'prometheus'},"
     ++ "'value':[1506422656.757,'1']},{'metric':{'__name__':'ALERTS','ale"
     ++ "rtname':'ExampleAlertAlwaysFiring','alertstate':'firing','job':'p"
     ++ "ushgateway'},'value':[1506422656.757,'1']}]}}").

Definition valid_prometheus_alerts_impacting : string :=
  quoted
    ("{'status':'success','data':{'resultType':'vector','result':[{'"
     ++ "metric':{'__name__':'ALERTS','alertname':'KubernetesMasterDown"
     ++ "','alertstate':'firing','job':'alertmanager'},'value':[150642265"
     ++ "6.757,'1']},{'metric':{'__name__':'ALERTS','alertname':'ExampleAl"
     ++ "ertAlwaysFiring','alertstate':'firing','job':'node'},'value':[150"
     ++ "6422656.757,'1']},{'metric':{'__name__':'ALERTS','alertname':'Exa"
     ++ "mpleAlertAlwaysFiring','alertstate':'firing','job':'prometheus'},"
     ++ "'value':[1506422656.757,'1']},{'metric':{'__name__':'ALERTS','ale"
     ++ "rtname':'ExampleAlertAlwaysFiring','alertstate':'firing','job':'p"
     ++ "ushgateway'},'value':[1506422656.757,'1']}]}}").

Definition invalid_prometheus_response : string := "narp".

Definition no_alerts : string :=
  quoted "{'status':'success','data':{'resultType':'vector','result':[]}}".

(** What Prometheus answers to a query it rejects: no ["data"]. *)
Definition error_response : string :=
  quoted "{'status':'error','errorType':'bad_data','error':'parse error'}".

Definition invalid_configuration : value :=
  VDict {[ "test" := VStr "test" ]}.

Definition valid_configuration : value :=
  VList [VStr "AlertOne"; VStr "AlertTwo"].

(** A world for the tests: the working directory holds a configuration of
    one alert name, [feed] is what the backend does with a request. *)
Definition test_world (feed : string -> result string) : world :=
  World (Return "/srv")
    (fun path =>
       if String.eqb path "/srv/config/clusterhealthz.conf"
       then Return ["KubernetesMasterDown" ++ NL]
       else Raise FileNotFoundError)
    feed
    json.loads
    (Return tt).

(** The same directory after the configuration has been removed. *)
Definition world_without_configuration (feed : string -> result string)
  : world :=
  World (Return "/srv") (fun _ => Raise FileNotFoundError) feed json.loads
    (Return tt).

(** The test world seen from a thread that is not the main thread, where
    [signal.signal] raises [ValueError]. *)
Definition off_main_thread : world :=
  World (Return "/srv")
    (fun path =>
       if String.eqb path "/srv/config/clusterhealthz.conf"
       then Return ["KubernetesMasterDown" ++ NL]
       else Raise FileNotFoundError)
    (fun _ => Raise ConnectionError)
    json.loads
    (Raise (OtherException "ValueError")).

(** A backend that answers every request with [text]. *)
Definition answers (text : string) : string -> result string :=
  fun _ => Return text.

(** A backend every request to which fails with [e]. *)
Definition fails (e : exn) : string -> result string :=
  fun _ => Raise e.

(** [ClusterHealthz()] in a test world. *)
Definition test_clusterhealthz_instance : state :=
  (__init__ (test_world (answers no_alerts)) default_prometheus_url new).2.

(** An instance whose last cycle found no alert firing. *)
Definition healthy_instance : state :=
  (start (test_world (answers no_alerts)) test_clusterhealthz_instance).2.

(** Scenario 1 of the specification: the watch list holds
    [KubernetesMasterDown] and an alert of that name is firing. *)
Definition master_down : value :=
  VDict {[ "metric" := VDict {[ "alertname" := VStr "KubernetesMasterDown" ]} ]}.

Definition master_down_feed : value :=
  VDict {[ "data" := VDict {[ "result" := VList [master_down] ]} ]}.

(** Scenario 1 with a second alert firing after the first, as in the feed
    of the test suite. *)
Definition example_alert : value :=
  VDict {[ "metric" :=
             VDict {[ "alertname" := VStr "ExampleAlertAlwaysFiring" ]} ]}.

Definition impacting_feed : value :=
  VDict {[ "data" := VDict {[ "result" := VList [master_down; example_alert] ]} ]}.

(** Texts at the limits of the decoder: [n] times the character [a], for
    arrays opened inside one another and for long integers. *)
Fixpoint repeated (a : ascii) (n : nat) : string :=
  match n with
  | O => EmptyString
  | S n' => String a (repeated a n')
  end.

Definition deeply_nested : string := repeated "[" 1001.

Definition long_integer : string := repeated "7" 4301.

(** What [json.loads] makes of a fixture, and the records of a payload. *)
Definition decoded (text : string) : value :=
  match json.loads text with
  | Return q => q
  | Raise _ => VNone
  end.

Definition records_of (q : value) : list value :=
  match result_of q with
  | Some (VList rs) => rs
  | _ => []
  end.

(** The payload of [error_response]. *)
Definition error_payload : value :=
  VDict {[ "status" := VStr "error";
           "errorType" := VStr "bad_data";
           "error" := VStr "parse error" ]}.

(** A configuration with an empty line and a repeated line. *)
Definition repetitive_lines : list string :=
  ["AlertOne" ++ NL; NL; "AlertOne" ++ NL].

(** ** [set_logger] and the root logger

    The root logger of [logging]: its handlers, its level and the number of
    handlers created so far, which names the next one.  A handler is an
    object: two handlers are the same when they are the same object, whatever
    they format. *)

Record handler : Type := Handler {
  handler_id : nat;
  formatter : option string
}.

Record root : Type := Root {
  handlers : list handler;
  root_level : Z;
  created : nat
}.

Definition same_handler (h h' : handler) : bool :=
  Nat.eqb (handler_id h) (handler_id h').

(** [hs.remove(h)] for an [h] that is in [hs]: the first occurrence goes. *)
Fixpoint list_remove (h : handler) (hs : list handler) : list handler :=
  match hs with
  | [] => []
  | h' :: hs' => if same_handler h h' then hs' else h' :: list_remove h hs'
  end.

(** [Logger.removeHandler]: [if hdlr in self.handlers:
    self.handlers.remove(hdlr)]. *)
Definition removeHandler (hdlr : handler) (hs : list handler) : list handler :=
  if existsb (same_handler hdlr) hs then list_remove hdlr hs else hs.

(** [Logger.addHandler]: [if not (hdlr in self.handlers):
    self.handlers.append(hdlr)]. *)
Definition addHandler (hdlr : handler) (hs : list handler) : list handler :=
  if existsb (same_handler hdlr) hs then hs else hs ++ [hdlr].

(** [for handler in root.handlers: root.removeHandler(handler)]: the loop
    runs over the list that [removeHandler] removes from.  The iterator is at
    index [i]; it yields the item at that index of the list as it then is,
    and stops when there is none.  Every iteration shortens the list, so
    that a fuel of the length of the list is never used up. *)
Fixpoint remove_handlers (fuel i : nat) (hs : list handler) : list handler :=
  match fuel with
  | O => hs
  | S fuel' =>
      match hs !! i with
      | Some h => remove_handlers fuel' (S i) (removeHandler h hs)
      | None => hs
      end
  end.

(** [logging._nameToLevel]. *)
Definition nameToLevel (name : string) : option Z :=
  if String.eqb name "CRITICAL" then Some 50%Z
  else if String.eqb name "FATAL" then Some 50%Z
  else if String.eqb name "ERROR" then Some 40%Z
  else if String.eqb name "WARN" then Some 30%Z
  else if String.eqb name "WARNING" then Some 30%Z
  else if String.eqb name "INFO" then Some 20%Z
  else if String.eqb name "DEBUG" then Some 10%Z
  else if String.eqb name "NOTSET" then Some 0%Z
  else None.

(** [logging._checkLevel]: an integer is a level, a string is one when it
    is the name of a level. *)
Definition checkLevel (lv : value) : result Z :=
  match lv with
  | VInt z => Return z
  | VBool b => Return (if b then 1 else 0)%Z
  | VStr name =>
      match nameToLevel name with
      | Some z => Return z
      | None => Raise (OtherException "ValueError")
      end
  | _ => Raise TypeError
  end.

(** [logging.basicConfig(format=format, level=lv)]: nothing when the root
    logger has a handler; otherwise a new stream handler with the format is
    added, and then the level is set unless it is [None]. *)
Definition basicConfig (format : string) (lv : value) (r : root)
  : result unit * root :=
  if Nat.eqb (length (handlers r)) 0 then
    let h := Handler (created r) (Some format) in
    let r1 := Root (addHandler h (handlers r)) (root_level r) (S (created r)) in
    match lv with
    | VNone => (Return tt, r1)
    | _ =>
        match checkLevel lv with
        | Return z => (Return tt, Root (handlers r1) z (created r1))
        | Raise e => (Raise e, r1)
        end
    end
  else (Return tt, r).

Definition log_format : string := "%(asctime)s %(levelname)-8s:%(message)s".

Definition set_logger (log_level : value) (r : root) : result unit * root :=
  let r1 :=
    Root (remove_handlers (length (handlers r)) 0 (handlers r))
      (root_level r) (created r) in
  let format := log_format in
  basicConfig format log_level r1.

(** The handlers of the root logger are distinct objects, all created
    already. *)
Definition distinct_handlers (r : root) : Prop :=
  NoDup (handler_id <$> handlers r)
  /\ forall h, h ∈ handlers r -> handler_id h < created r.

(** The items of a list at its odd indices (counting from 0). *)
Fixpoint odd_items {A} (l : list A) : list A :=
  match l with
  | _ :: x :: l' => x :: odd_items l'
  | _ => []
  end.

(** A root logger with [n] handlers, at the default level WARNING. *)
Definition root_with (n : nat) : root :=
  Root ((fun i => Handler i None) <$> seq 0 n) 30 n.

(** * Properties *)

(** ** Python values *)

Lemma str_in_elem_of (x : string) (l : list value) :
  str_in x l = true <-> VStr x ∈ l.
Proof.
  unfold str_in. rewrite existsb_exists. split.
  - intros (v & Hv & Heq). destruct v; simpl in Heq; try discriminate.
    apply String.eqb_eq in Heq. subst. by apply list_elem_of_In.
  - intros Hin. exists (VStr x). split; [by apply list_elem_of_In|].
    simpl. apply String.eqb_refl.
Qed.

Lemma watched_name_firing (wl : list string) (names : list value) :
  existsb (fun x => str_in x names) wl = true
  <-> exists x, x ∈ wl /\ VStr x ∈ names.
Proof.
  rewrite existsb_exists. split.
  - intros (x & Hx & Hin). exists x.
    split; [by apply list_elem_of_In | by apply str_in_elem_of].
  - intros (x & Hx & Hin). exists x.
    split; [by apply list_elem_of_In | by apply str_in_elem_of].
Qed.

Lemma subscript_result_of (q r : value) :
  result_of q = Some r ->
  exists data,
    subscript q "data" = Return data /\ subscript data "result" = Return r.
Proof.
  unfold result_of. destruct q as [| | | | | |d]; try discriminate.
  destruct (d !! "data") as [[| | | | | |dd]|] eqn:Hd; try discriminate.
  intros Hr. exists (VDict dd). simpl. by rewrite Hd, Hr.
Qed.

Lemma code_points_nil (s : string) :
  code_points s = [] <-> s = EmptyString.
Proof.
  split; [|by intros ->].
  destruct s as [|a s]; [done|]. simpl.
  destruct s as [|b s]; [done|].
  destruct (is_continuation b); [|done].
  by destruct (code_points (String b s)).
Qed.

(** ** Evaluation *)

Lemma alert_record_name_of (a : value) :
  alert_record a = true <-> is_Some (name_of a).
Proof.
  unfold alert_record, name_of.
  destruct a as [| | | | | |d]; try (split; [done | by intros []]).
  destruct (d !! "metric") as [[| | | | | |m]|];
    try (split; [done | by intros []]).
  apply bool_decide_eq_true.
Qed.

(** The loop over the firing list: where every record has a name, it
    yields the names of the records, one for each record and in their
    order. *)
Lemma alert_names_names (rs : list value) :
  forallb alert_record rs = true ->
  exists names,
    alert_names rs = Return names
    /\ Forall2 (fun a n => name_of a = Some n) rs names.
Proof.
  induction rs as [|a rs IH]; simpl.
  - intros _. exists []. by split.
  - intros [Ha Hrs]%andb_prop.
    destruct (IH Hrs) as (names & Hnames & Hall).
    apply alert_record_name_of in Ha as [n Hn].
    exists (n :: names). split; [|by constructor].
    unfold name_of in Hn. destruct a as [| | | | | |d]; try done. simpl.
    destruct (d !! "metric") as [[| | | | | |m]|]; try done. simpl.
    by rewrite Hn, Hnames.
Qed.

Lemma watched_record_firing
    (wl : list string) (rs names : list value) :
  Forall2 (fun a n => name_of a = Some n) rs names ->
  existsb (fun x => str_in x names) wl = true <-> firing_watched wl rs.
Proof.
  intros Hall. rewrite watched_name_firing. unfold firing_watched.
  split.
  - intros (x & Hx & Hin).
    apply list_elem_of_lookup in Hin as [i Hi].
    destruct (Forall2_lookup_r _ _ _ _ _ Hall Hi) as (a & Ha & Hname).
    exists x, a. split; [done|]. split; [|done].
    by eapply list_elem_of_lookup_2.
  - intros (x & a & Hx & Ha & Hname).
    apply list_elem_of_lookup in Ha as [i Hi].
    destruct (Forall2_lookup_l _ _ _ _ _ Hall Hi) as (n & Hn & Hname').
    exists x. split; [done|]. rewrite Hname in Hname'.
    injection Hname' as <-. by eapply list_elem_of_lookup_2.
Qed.

(** The verdict [process_prometheus_alerts] stores for a firing list whose
    records have names. *)
Lemma process_prometheus_alerts_evaluates
    (q : value) (st : state) (rs : list value) (wl : list string) :
  result_of q = Some (VList rs) ->
  forallb alert_record rs = true ->
  alerts st = Some wl ->
  exists st' v,
    process_prometheus_alerts q st = (Return tt, st')
    /\ alerts st' = alerts st
    /\ prometheus_url st' = prometheus_url st
    /\ _status st' = Some v
    /\ (v = "unhealthy" /\ rs <> [] /\ firing_watched wl rs
        \/ v = "healthy" /\ ~ firing_watched wl rs).
Proof.
  intros Hq Hrs Hwl.
  destruct st as [u al s hup lg]. simpl in Hwl. subst al.
  destruct (subscript_result_of _ _ Hq) as (data & Hdata & Hres).
  destruct (alert_names_names rs Hrs) as (names & Hnames & Hall).
  pose proof (watched_record_firing wl rs names Hall) as Hiff.
  unfold process_prometheus_alerts, bind, lift, getattr.
  rewrite Hdata, Hres. simpl.
  destruct rs as [|r rs].
  - eexists _, "healthy". do 4 (split; [reflexivity|]).
    right. split; [done|].
    intros (x & a & _ & Ha & _). by apply elem_of_nil in Ha.
  - cbn [length Nat.eqb]. rewrite Hnames. simpl.
    destruct (existsb (fun x => str_in x names) wl) eqn:Hany.
    + eexists _, "unhealthy". do 4 (split; [reflexivity|]).
      left. split; [done|]. split; [done | by apply Hiff].
    + eexists _, "healthy". do 4 (split; [reflexivity|]).
      right. split; [done|].
      intros Hfiring. apply Hiff in Hfiring. congruence.
Qed.

(** C1.  For every firing-alert list [rs] (a list of records that each have
    a name) and every watch list [wl]: if [rs] is empty,
    [process_prometheus_alerts] stores the verdict healthy; if it is not,
    the verdict is unhealthy exactly when some entry of the watch list is the
    name of a record of [rs], and healthy otherwise.  The watch list is left
    as it was. *)
Theorem process_prometheus_alerts_verdict
    (q : value) (st : state) (rs : list value) (wl : list string) :
  result_of q = Some (VList rs) ->
  forallb alert_record rs = true ->
  alerts st = Some wl ->
  exists st',
    process_prometheus_alerts q st = (Return tt, st')
    /\ alerts st' = Some wl
    /\ (rs = [] -> _status st' = Some "healthy")
    /\ (rs <> [] ->
        (_status st' = Some "unhealthy"
         <-> exists x a, x ∈ wl /\ a ∈ rs /\ name_of a = Some (VStr x))
        /\ (_status st' = Some "healthy"
            <-> ~ exists x a, x ∈ wl /\ a ∈ rs /\ name_of a = Some (VStr x))).
Proof.
  intros Hq Hrs Hwl.
  destruct (process_prometheus_alerts_evaluates q st rs wl Hq Hrs Hwl)
    as (st' & v & Hrun & Halerts & _ & Hstatus & Hverdict).
  exists st'. split; [exact Hrun|]. split; [congruence|].
  fold (firing_watched wl rs). rewrite Hstatus.
  destruct Hverdict as [(-> & Hne & Hfiring)|[-> Hnone]].
  - split; [done|]. intros _. split; [done|]. split; [done | by intros ?].
  - split; [done|]. intros _. split; [|done]. split; [done | by intros ?%Hnone].
Qed.

Lemma process_prometheus_alerts_verdict_witness :
  exists st',
    process_prometheus_alerts impacting_feed test_clusterhealthz_instance
    = (Return tt, st')
    /\ _status st' = Some "unhealthy".
Proof.
  destruct (process_prometheus_alerts_verdict impacting_feed
              test_clusterhealthz_instance [master_down; example_alert]
              ["KubernetesMasterDown"] eq_refl eq_refl eq_refl)
    as (st' & Hrun & _ & _ & Hfiring).
  exists st'. split; [exact Hrun|].
  apply Hfiring; [discriminate|].
  exists "KubernetesMasterDown", master_down.
  split; [apply list_elem_of_here|]. split; [apply list_elem_of_here|].
  reflexivity.
Defined.

(** ** The cycle *)

(** Runs [get_prometheus_alerts] inside the goal, given the address of the
    backend and what it does with the request. *)
Ltac fetch Hurl Hget :=
  match type of Hurl with
  | prometheus_url ?st = Some _ =>
      destruct st; cbn [prometheus_url] in Hurl; subst
  end;
  unfold return_status, start, get_prometheus_alerts, bind, getattr,
    try_except, lift;
  cbn [prometheus_url];
  match type of Hget with
  | requests_get _ (alert_path ?url) = _ => fold (alert_path url)
  end;
  rewrite Hget.

(** A response with an empty body: nothing is decoded, nothing is
    evaluated, the stored verdict and the watch list stay. *)
Lemma start_empty_body_state (w : world) (st : state) (url : string) :
  prometheus_url st = Some url ->
  requests_get w (alert_path url) = Return EmptyString ->
  start w st
  = (Return tt,
     logged (LogRecord CRITICAL "Could not get alerts from Prometheus" NoArg)
       st).
Proof.
  intros Hurl Hget. fetch Hurl Hget. reflexivity.
Qed.

(** C10.  When the fetch yields an empty response body, [start] publishes
    nothing: the stored verdict and the watch list are what they were before
    the cycle, and the health query answers with the previous verdict. *)
Theorem start_empty_body
    (w : world) (st : state) (url : string) :
  prometheus_url st = Some url ->
  requests_get w (alert_path url) = Return EmptyString ->
  exists st',
    start w st = (Return tt, st')
    /\ _status st' = _status st
    /\ alerts st' = alerts st
    /\ forall v, _status st = Some v ->
                 (return_status w st).1 = Return v.
Proof.
  intros Hurl Hget.
  pose proof (start_empty_body_state w st url Hurl Hget) as Hstart.
  eexists. split; [exact Hstart|]. repeat split.
  intros v Hv. unfold return_status, bind. rewrite Hstart.
  unfold status, getattr. simpl. by rewrite Hv.
Qed.

Lemma start_empty_body_witness :
  exists st',
    start (test_world (answers EmptyString)) test_clusterhealthz_instance
    = (Return tt, st')
    /\ _status st' = Some "unhealthy"
    /\ alerts st' = Some ["KubernetesMasterDown"].
Proof.
  destruct (start_empty_body (test_world (answers EmptyString))
              test_clusterhealthz_instance default_prometheus_url
              eq_refl eq_refl)
    as (st' & Hrun & Hstatus & Halerts & _).
  exists st'. split; [exact Hrun|]. split.
  - rewrite Hstatus. reflexivity.
  - rewrite Halerts. reflexivity.
Defined.

(** A connection failure: [get_prometheus_alerts] stores unhealthy and
    returns [None], and [start] goes no further. *)
Lemma start_connection_error (w : world) (st : state) (url : string) :
  prometheus_url st = Some url ->
  requests_get w (alert_path url) = Raise ConnectionError ->
  start w st
  = (Return tt,
     logged (LogRecord CRITICAL "Could not get alerts from Prometheus" NoArg)
       (with_status "unhealthy"
          (logged
             (LogRecord CRITICAL
                "Could not get the alert data from Prometheus. Path tried was {}"
                (Arg (VStr (alert_path url))))
             st))).
Proof.
  intros Hurl Hget. fetch Hurl Hget. reflexivity.
Qed.

(** The handler of [socket.gaierror], were that error itself to leave
    [requests.get]: it stores unhealthy and ends without returning, and
    [alerts.text] is then read off [None]. *)
Lemma start_gaierror (w : world) (st : state) (url : string) :
  prometheus_url st = Some url ->
  requests_get w (alert_path url) = Raise gaierror ->
  start w st
  = (Raise (AttributeError "text"),
     with_status "unhealthy"
       (logged (LogRecord CRITICAL "Could not resolve Prometheus in DNS" NoArg)
          st)).
Proof.
  intros Hurl Hget. fetch Hurl Hget. reflexivity.
Qed.

(** The route after a cycle that has stored a verdict and returned. *)
Lemma return_status_after_start (w : world) (st st' : state) (v : string) :
  start w st = (Return tt, st') ->
  _status st' = Some v ->
  return_status w st = (Return v, st').
Proof.
  intros Hstart Hv. unfold return_status, bind. rewrite Hstart.
  unfold status, getattr. by rewrite Hv.
Qed.



(** ** Decoding *)

(** C4.  For every text that [json.loads] rejects with [JSONDecodeError],
    [json_prometheus_response] returns [None] and raises nothing; the watch
    list is left as it was, and the stored verdict is set to unhealthy. *)
Theorem json_prometheus_response_decode_failure
    (w : world) (prometheus_string : string) (st : state) :
  json_loads w prometheus_string = Raise JSONDecodeError ->
  exists st',
    json_prometheus_response w prometheus_string st = (Return VNone, st')
    /\ alerts st' = alerts st
    /\ prometheus_url st' = prometheus_url st
    /\ _status st' = Some "unhealthy"
    /\ log st'
       = (log st
          ++ [LogRecord CRITICAL
                "JSONDecodeError of the response from Prometheus" NoArg])%list.
Proof.
  intros Hloads.
  unfold json_prometheus_response, try_except, lift, bind. rewrite Hloads.
  eexists. split; [reflexivity|]. by repeat split.
Qed.

Lemma json_prometheus_response_decode_failure_witness :
  exists st',
    json_prometheus_response (test_world (answers invalid_prometheus_response))
      invalid_prometheus_response healthy_instance
    = (Return VNone, st')
    /\ _status st' = Some "unhealthy".
Proof.
  destruct (json_prometheus_response_decode_failure
              (test_world (answers invalid_prometheus_response))
              invalid_prometheus_response healthy_instance eq_refl)
    as (st' & Hrun & _ & _ & Hstatus & _).
  exists st'. split; [exact Hrun | exact Hstatus].
Defined.

(** Against C4 as stated: the text [narp] is rejected by the decoder, the
    stored verdict is healthy before the call and unhealthy after it. *)
Lemma decode_failure_overwrites_verdict :
  json.loads invalid_prometheus_response = Raise JSONDecodeError
  /\ _status healthy_instance = Some "healthy"
  /\ _status
       (json_prometheus_response
          (test_world (answers invalid_prometheus_response))
          invalid_prometheus_response healthy_instance).2
     = Some "unhealthy".
Proof. by vm_compute. Qed.

(** ** [strip] *)

Lemma append_cons (a : ascii) (s t : string) :
  String a s ++ t = String a (s ++ t).
Proof. reflexivity. Qed.

Lemma append_nil (t : string) : EmptyString ++ t = t.
Proof. reflexivity. Qed.

Lemma lstrip_decompose (cs s : string) :
  exists pre,
    s = pre ++ lstrip cs s
    /\ all_in cs pre = true
    /\ first_in cs (lstrip cs s) = false.
Proof.
  induction s as [|a s (pre & Heq & Hpre & Hfirst)].
  - by exists EmptyString.
  - simpl. destruct (mem_ascii a cs) eqn:Ha.
    + exists (String a pre). rewrite append_cons. simpl.
      rewrite Ha, Hpre. by rewrite <- Heq.
    + exists EmptyString. rewrite append_nil. simpl. by rewrite Ha.
Qed.

Lemma rstrip_decompose (cs s : string) :
  exists post,
    s = rstrip cs s ++ post
    /\ all_in cs post = true
    /\ last_in cs (rstrip cs s) = false.
Proof.
  induction s as [|a s (post & Heq & Hpost & Hlast)].
  - by exists EmptyString.
  - simpl. destruct (rstrip cs s) as [|b r] eqn:Hr.
    + rewrite append_nil in Heq. subst post.
      destruct (mem_ascii a cs) eqn:Ha.
      * exists (String a s). rewrite append_nil. simpl. by rewrite Ha, Hpost.
      * exists s. rewrite append_cons, append_nil. simpl. by rewrite Ha.
    + exists post. rewrite append_cons, <- Heq. by repeat split.
Qed.

Lemma rstrip_first_in (cs s : string) :
  first_in cs s = false -> first_in cs (rstrip cs s) = false.
Proof.
  destruct s as [|a s]; [done|]. simpl. intros Ha.
  destruct (rstrip cs s); [|done]. by rewrite Ha.
Qed.

(** What [s.strip(cs)] returns: [s] without a prefix and a suffix made of
    characters of [cs], neither starting nor ending with one. *)
Lemma strip_decompose (cs s : string) :
  exists pre post,
    s = pre ++ strip cs s ++ post
    /\ all_in cs pre = true
    /\ all_in cs post = true
    /\ first_in cs (strip cs s) = false
    /\ last_in cs (strip cs s) = false.
Proof.
  destruct (lstrip_decompose cs s) as (pre & Hs & Hpre & Hfirst).
  destruct (rstrip_decompose cs (lstrip cs s)) as (post & Hl & Hpost & Hlast).
  exists pre, post. unfold strip. repeat split; try done.
  - by rewrite <- Hl.
  - by apply rstrip_first_in.
Qed.

Lemma lstrip_all_in (cs t : string) :
  all_in cs t = true -> lstrip cs t = EmptyString.
Proof.
  induction t as [|b t IH]; simpl; [done|].
  intros [Hb Ht]%andb_prop. rewrite Hb. by apply IH.
Qed.

Lemma rstrip_all_in (cs t : string) :
  all_in cs t = true -> rstrip cs t = EmptyString.
Proof.
  induction t as [|b t IH]; simpl; [done|].
  intros [Hb Ht]%andb_prop. by rewrite (IH Ht), Hb.
Qed.

Lemma rstrip_none_in (cs s t : string) :
  none_in cs s = true -> all_in cs t = true -> rstrip cs (s ++ t) = s.
Proof.
  intros Hs Ht. induction s as [|a s IH].
  - rewrite append_nil. by apply rstrip_all_in.
  - rewrite append_cons. simpl in *. apply andb_prop in Hs as [Ha Hs].
    rewrite (IH Hs). apply negb_true_iff in Ha.
    destruct s; [by rewrite Ha | done].
Qed.

(** A line as [readlines] yields it, its terminators at the end only, is
    stripped to its content. *)
Lemma strip_line (cs body t : string) :
  none_in cs body = true -> all_in cs t = true ->
  strip cs (body ++ t) = body.
Proof.
  intros Hbody Ht. unfold strip. destruct body as [|a body].
  - rewrite append_nil. by rewrite (lstrip_all_in _ _ Ht).
  - rewrite append_cons. simpl lstrip. simpl in Hbody.
    apply andb_prop in Hbody as [Ha Hbody].
    apply negb_true_iff in Ha as Ha'. rewrite Ha'.
    rewrite <- append_cons. apply rstrip_none_in; [|done].
    simpl. by rewrite Ha, Hbody.
Qed.

(** ** Configuration *)

Lemma strip_each_strings (lines : list string) :
  strip_each (VStr <$> lines) = Return (strip NL <$> lines).
Proof.
  induction lines as [|l lines IH]; [done|].
  rewrite !fmap_cons. simpl. by rewrite IH.
Qed.

Lemma process_configuration_lines (lines : list string) (st : state) :
  process_configuration (VList (VStr <$> lines)) st
  = (Return tt,
     with_alerts (strip NL <$> lines)
       (logged
          (LogRecord INFO "Setting cluster critical alarms to: {}"
             (Arg (VList (VStr <$> (strip NL <$> lines)))))
          st)).
Proof.
  unfold process_configuration, bind, lift.
  by rewrite strip_each_strings.
Qed.

(** C6.  For every configuration source read as a list of lines,
    [process_configuration] produces a watch list with one entry for each
    line, in the order of the source: the entry of a line is that line
    without the newline characters at its two ends, so that a line made of
    its content and a final newline gives its content.  (An empty line gives
    the empty entry and a repeated line a repeated entry.) *)
Theorem process_configuration_entries (lines : list string) (st : state) :
  exists st' wl,
    process_configuration (VList (VStr <$> lines)) st = (Return tt, st')
    /\ alerts st' = Some wl
    /\ length wl = length lines
    /\ (forall i l, lines !! i = Some l ->
        exists e pre post,
          wl !! i = Some e
          /\ l = pre ++ e ++ post
          /\ all_in NL pre = true /\ all_in NL post = true
          /\ first_in NL e = false /\ last_in NL e = false)
    /\ (forall i body, lines !! i = Some (body ++ NL) ->
        none_in NL body = true -> wl !! i = Some body).
Proof.
  eexists _, (strip NL <$> lines).
  split; [apply process_configuration_lines|].
  split; [done|]. split; [by rewrite length_fmap|]. split.
  - intros i l Hl.
    destruct (strip_decompose NL l) as (pre & post & Heq & Hpre & Hpost & Hf & Hl').
    exists (strip NL l), pre, post. rewrite list_lookup_fmap, Hl.
    by repeat split.
  - intros i body Hl Hbody. rewrite list_lookup_fmap, Hl. simpl.
    by rewrite (strip_line NL body NL Hbody).
Qed.

Lemma process_configuration_entries_witness :
  exists st',
    process_configuration valid_configuration test_clusterhealthz_instance
    = (Return tt, st')
    /\ alerts st' = Some ["AlertOne"; "AlertTwo"].
Proof.
  destruct (process_configuration_entries ["AlertOne"; "AlertTwo"]
              test_clusterhealthz_instance)
    as (st' & wl & Hrun & Halerts & Hlength & Hentries & _).
  exists st'. split; [exact Hrun|]. rewrite Halerts. f_equal.
  destruct (Hentries 0 "AlertOne" eq_refl)
    as (e0 & pre0 & post0 & Hwl0 & _).
  destruct (Hentries 1 "AlertTwo" eq_refl)
    as (e1 & pre1 & post1 & Hwl1 & _).
  revert Hrun Halerts. vm_compute. intros [= <-] [= <-]. reflexivity.
Defined.

(** Against C6 as stated: the watch list made from [repetitive_lines] holds
    the empty entry and holds [AlertOne] twice. *)
Lemma process_configuration_keeps_empty_and_repeated :
  alerts (process_configuration (VList (VStr <$> repetitive_lines))
            test_clusterhealthz_instance).2
  = Some ["AlertOne"; EmptyString; "AlertOne"]
  /\ ~ watch_list_of repetitive_lines ["AlertOne"; EmptyString; "AlertOne"].
Proof.
  split; [by vm_compute|].
  intros (_ & Hnodup & _).
  apply NoDup_cons in Hnodup as [Hnotin _]. apply Hnotin.
  apply list_elem_of_further, list_elem_of_here.
Qed.

(** [open_configuration], by what finding, opening and reading the source
    gives. *)
Lemma open_configuration_eq (w : world) (p : option string) (st : state) :
  open_configuration w p st
  = let st1 :=
      logged (LogRecord INFO "Attempting to open the alert configuration"
                NoArg) st in
    match opened_path w p with
    | Return path =>
        match readlines w path with
        | Return lines => process_configuration (VList (VStr <$> lines)) st1
        | Raise FileNotFoundError =>
            (Raise (SystemExit 1),
             logged (LogRecord CRITICAL "Could not find the configuration file"
                       NoArg) st1)
        | Raise e => (Raise e, st1)
        end
    | Raise e => (Raise e, st1)
    end.
Proof.
  assert (forall (r : result string) st1,
             bind (bind (lift r)
                     (fun cwd => ret (cwd ++ "/config/clusterhealthz.conf")))
               (fun path =>
                  bind (try_except (lift (readlines w path))
                          (fun e =>
                             match e with
                             | FileNotFoundError =>
                                 Some (bind
                                         (logging CRITICAL
                                            "Could not find the configuration file"
                                            NoArg)
                                         (fun _ => sys_exit 1))
                             | _ => None
                             end))
                    (fun config_contents =>
                       process_configuration
                         (VList (VStr <$> config_contents)))) st1
             = match match r with
                     | Return cwd =>
                         Return (cwd ++ "/config/clusterhealthz.conf")
                     | Raise e => Raise e
                     end with
               | Return path =>
                   match readlines w path with
                   | Return lines =>
                       process_configuration (VList (VStr <$> lines)) st1
                   | Raise FileNotFoundError =>
                       (Raise (SystemExit 1),
                        logged (LogRecord CRITICAL
                                  "Could not find the configuration file"
                                  NoArg) st1)
                   | Raise e => (Raise e, st1)
                   end
               | Raise e => (Raise e, st1)
               end) as Hdefault.
  { intros [cwd|e] st1; [|done].
    unfold bind, try_except, lift, logging, ret.
    destruct (readlines w _) as [lines|[]]; reflexivity. }
  unfold open_configuration, opened_path, default_configuration. cbv zeta.
  unfold bind at 1. unfold logging at 1.
  destruct p as [path|]; [|apply Hdefault].
  destruct (truthy (VStr path)); [|apply Hdefault].
  unfold bind, try_except, lift, logging, ret.
  destruct (readlines w path) as [lines|[]]; reflexivity.
Qed.

(** C7.  Loading from a source that does not exist fails with
    [SystemExit(1)], after the critical record that the configuration file
    could not be found; processing a configuration that is a mapping fails
    with [TypeError]; in neither case is the watch list assigned. *)
Theorem load_failures (w : world) (st : state) :
  (forall p path,
      opened_path w p = Return path ->
      readlines w path = Raise FileNotFoundError ->
      exists st',
        open_configuration w p st = (Raise (SystemExit 1), st')
        /\ alerts st' = alerts st
        /\ _status st' = _status st
        /\ last (log st')
           = Some (LogRecord CRITICAL "Could not find the configuration file"
                     NoArg))
  /\ (forall d,
         exists st',
           process_configuration (VDict d) st = (Raise TypeError, st')
           /\ alerts st' = alerts st
           /\ _status st' = _status st).
Proof.
  split.
  - intros p path Hpath Hread.
    rewrite open_configuration_eq, Hpath, Hread. cbv zeta.
    eexists. split; [reflexivity|]. repeat split. simpl. by rewrite last_snoc.
  - intros d. eexists. split; [reflexivity|]. by split.
Qed.

Lemma load_failures_witness :
  (exists st',
      open_configuration (test_world (answers no_alerts))
        (Some "does_not_exist") test_clusterhealthz_instance
      = (Raise (SystemExit 1), st')
      /\ alerts st' = Some ["KubernetesMasterDown"])
  /\ (exists st',
         process_configuration invalid_configuration
           test_clusterhealthz_instance
         = (Raise TypeError, st')
         /\ alerts st' = Some ["KubernetesMasterDown"]).
Proof.
  destruct (load_failures (test_world (answers no_alerts))
              test_clusterhealthz_instance) as [Hopen Hprocess].
  split.
  - destruct (Hopen (Some "does_not_exist") "does_not_exist" eq_refl eq_refl)
      as (st' & Hrun & Halerts & _).
    exists st'. split; [exact Hrun|]. rewrite Halerts. reflexivity.
  - destruct (Hprocess {[ "test" := VStr "test" ]})
      as (st' & Hrun & Halerts & _).
    exists st'. split; [exact Hrun|]. rewrite Halerts. reflexivity.
Defined.

(** ** Reload *)

(** The outcome of an evaluation and the verdict it stores are decided by
    the payload and the watch list (and, when the evaluation raises, by the
    verdict stored before). *)
Lemma process_prometheus_alerts_reads_alerts (q : value) (st1 st2 : state) :
  alerts st1 = alerts st2 ->
  _status st1 = _status st2 ->
  (process_prometheus_alerts q st1).1 = (process_prometheus_alerts q st2).1
  /\ _status (process_prometheus_alerts q st1).2
     = _status (process_prometheus_alerts q st2).2.
Proof.
  intros Ha Hs. unfold process_prometheus_alerts, bind, lift, getattr.
  destruct (subscript q "data") as [data|]; [|done].
  destruct (subscript data "result") as [r|]; [|done].
  destruct (len r) as [n|]; [|done].
  destruct (n =? 0)%nat; [done|].
  destruct (iter r) as [items|]; [|done].
  destruct (alert_names items) as [names|]; [|done].
  rewrite Ha. destruct (alerts st2) as [wl|]; [|done].
  by destruct (existsb _ wl).
Qed.

(** [signal_handler], by what finding, opening and reading the source
    gives. *)
Lemma signal_handler_eq (w : world) (st : state) :
  signal_handler w st
  = let st1 :=
      logged (LogRecord INFO "Attempting to open the alert configuration"
                NoArg)
        (logged
           (LogRecord INFO
              "SIGHUP Received and handled. Will attempt to reload the alert configuration"
              NoArg) st) in
    match getcwd w with
    | Return cwd =>
        match readlines w (cwd ++ "/config/clusterhealthz.conf") with
        | Return lines =>
            (Return tt,
             with_alerts (strip NL <$> lines)
               (logged
                  (LogRecord INFO "Setting cluster critical alarms to: {}"
                     (Arg (VList (VStr <$> (strip NL <$> lines))))) st1))
        | Raise FileNotFoundError =>
            (Raise (SystemExit 1),
             logged (LogRecord CRITICAL "Could not find the configuration file"
                       NoArg) st1)
        | Raise e => (Raise e, st1)
        end
    | Raise e => (Raise e, st1)
    end.
Proof.
  unfold signal_handler, bind, logging.
  rewrite open_configuration_eq. cbv zeta.
  unfold opened_path, default_configuration.
  destruct (getcwd w) as [cwd|e]; [|done].
  destruct (readlines w _) as [lines|e]; [|done].
  by rewrite process_configuration_lines.
Qed.

(** C3.  A reload that fails is not absorbed.  When the working directory
    cannot be had, the error of [os.getcwd()] leaves [signal_handler]; when
    the source cannot be opened and read, the error of that leaves it,
    [SystemExit(1)] in the place of [FileNotFoundError]; and the reload
    fails in no other way.  A reload that fails leaves the watch list and
    the stored verdict as they were, so that evaluating the same payload
    before and after it gives the same outcome and the same verdict. *)
Theorem failed_reload_keeps_watch_list (w : world) (st : state) :
  (forall e0,
      getcwd w = Raise e0 ->
      (signal_handler w st).1 = Raise e0)
  /\ (forall cwd e0,
         getcwd w = Return cwd ->
         readlines w (cwd ++ "/config/clusterhealthz.conf") = Raise e0 ->
         (signal_handler w st).1
         = Raise match e0 with
                 | FileNotFoundError => SystemExit 1
                 | _ => e0
                 end)
  /\ (forall e,
         (signal_handler w st).1 = Raise e ->
         ((exists e0, getcwd w = Raise e0)
          \/ (exists cwd e0,
                 getcwd w = Return cwd
                 /\ readlines w (cwd ++ "/config/clusterhealthz.conf")
                    = Raise e0))
         /\ alerts (signal_handler w st).2 = alerts st
         /\ _status (signal_handler w st).2 = _status st
         /\ forall q,
             (process_prometheus_alerts q (signal_handler w st).2).1
             = (process_prometheus_alerts q st).1
             /\ _status (process_prometheus_alerts q (signal_handler w st).2).2
                = _status (process_prometheus_alerts q st).2).
Proof.
  rewrite signal_handler_eq. cbv zeta.
  split; [|split].
  - by intros e0 ->.
  - intros cwd e0 -> ->. by destruct e0.
  - intros e. destruct (getcwd w) as [cwd|e0].
    + destruct (readlines w _) as [lines|e0] eqn:Hread; [done|].
      intros _.
      assert (forall st',
                 alerts st' = alerts st ->
                 _status st' = _status st ->
                 ((exists e1, @Return string cwd = Raise e1)
                  \/ (exists cwd' e1,
                         @Return string cwd = Return cwd'
                         /\ readlines w (cwd' ++ "/config/clusterhealthz.conf")
                            = Raise e1))
                 /\ alerts st' = alerts st
                 /\ _status st' = _status st
                 /\ forall q,
                     (process_prometheus_alerts q st').1
                     = (process_prometheus_alerts q st).1
                     /\ _status (process_prometheus_alerts q st').2
                        = _status (process_prometheus_alerts q st).2) as Hframe.
      { intros st' Ha Hs. split; [right; by exists cwd, e0|].
        split; [done|]. split; [done|].
        intros q. by apply process_prometheus_alerts_reads_alerts. }
      destruct e0; by apply Hframe.
    + intros _. split; [left; by exists e0|]. split; [done|]. split; [done|].
      intros q. by apply process_prometheus_alerts_reads_alerts.
Qed.

Lemma failed_reload_keeps_watch_list_witness :
  (signal_handler (world_without_configuration (answers no_alerts))
     test_clusterhealthz_instance).1
  = Raise (SystemExit 1)
  /\ alerts (signal_handler (world_without_configuration (answers no_alerts))
               test_clusterhealthz_instance).2
     = Some ["KubernetesMasterDown"].
Proof.
  destruct (failed_reload_keeps_watch_list
              (world_without_configuration (answers no_alerts))
              test_clusterhealthz_instance)
    as (_ & Hread & Hframe).
  pose proof (Hread "/srv" FileNotFoundError eq_refl eq_refl) as Hraise.
  split; [exact Hraise|].
  destruct (Hframe _ Hraise) as (_ & Halerts & _).
  rewrite Halerts. reflexivity.
Defined.

(** Against C3 as stated: with the configuration file gone, the reload does
    not return; [SystemExit(1)] leaves the handler. *)
Lemma reload_without_configuration_exits :
  default_configuration (world_without_configuration (answers no_alerts))
  = Return "/srv/config/clusterhealthz.conf"
  /\ readlines (world_without_configuration (answers no_alerts))
       "/srv/config/clusterhealthz.conf"
     = Raise FileNotFoundError
  /\ sighup test_clusterhealthz_instance = true
  /\ (signal_handler (world_without_configuration (answers no_alerts))
        test_clusterhealthz_instance).1
     = Raise (SystemExit 1).
Proof. by vm_compute. Qed.

(** ** Payloads of another shape *)

Lemma alert_names_ill_shaped (rs : list value) :
  forallb alert_record rs = false ->
  exists e, shape_error e /\ alert_names rs = Raise e.
Proof.
  induction rs as [|r rs IH]; [done|]. simpl.
  destruct (alert_record r) eqn:Hr; simpl.
  - intros (e & He & Hrs)%IH. exists e. split; [done|].
    unfold alert_record in Hr.
    destruct r as [| | | | | |d]; try done. simpl.
    destruct (d !! "metric") as [[| | | | | |m]|]; try done. simpl.
    apply bool_decide_eq_true in Hr as [name Hname].
    by rewrite Hname, Hrs.
  - intros _. unfold alert_record in Hr.
    destruct r as [| | | | | |d]; try (by exists TypeError; split; [left|]).
    simpl. destruct (d !! "metric") as [metric|];
      [|by exists (KeyError "metric"); split; [right; eexists|]].
    destruct metric as [| | | | | |m];
      try (by exists TypeError; split; [left|]).
    simpl. destruct (m !! "alertname") as [name|] eqn:Hname.
    + apply bool_decide_eq_false in Hr. destruct Hr. by exists name.
    + by exists (KeyError "alertname"); split; [right; eexists|].
Qed.

Lemma alert_names_of_strings (s : string) (l : list string) :
  alert_names (VStr <$> (s :: l)) = Raise TypeError.
Proof. reflexivity. Qed.

(** What evaluation does with a payload that is not of the nested shape:
    it raises [KeyError] or [TypeError] and touches nothing, except where
    the result is an empty string or an empty dictionary, which it takes
    for an empty list. *)
Lemma process_prometheus_alerts_ill_shaped (q : value) (st : state) :
  well_shaped q = false ->
  (exists e, shape_error e /\ process_prometheus_alerts q st = (Raise e, st))
  \/ ((result_of q = Some (VStr EmptyString) \/ result_of q = Some (VDict ∅))
      /\ process_prometheus_alerts q st
         = (Return tt,
            with_status "healthy"
              (logged (LogRecord INFO "No alerts in Prometheus" NoArg) st))).
Proof.
  unfold well_shaped, result_of, process_prometheus_alerts, bind, lift.
  destruct q as [| | | | | |d]; try (by left; exists TypeError; split; [left|]).
  simpl. destruct (d !! "data") as [data|];
    [|by left; exists (KeyError "data"); split; [right; eexists|]].
  destruct data as [| | | | | |dd];
    try (by left; exists TypeError; split; [left|]).
  simpl. destruct (dd !! "result") as [r|];
    [|by left; exists (KeyError "result"); split; [right; eexists|]].
  destruct r as [| | | |s|rs|rd];
    try (by left; exists TypeError; split; [left|]).
  - simpl. intros _. destruct (code_points s) as [|c cs] eqn:Hcs.
    + apply code_points_nil in Hcs as ->. right. split; [by left | done].
    + left. exists TypeError. split; [by left|]. done.
  - intros Hrs. destruct rs as [|r rs]; [done|].
    destruct (alert_names_ill_shaped _ Hrs) as (e & He & Hnames).
    left. exists e. split; [done|]. cbn [len length Nat.eqb iter].
    by rewrite Hnames.
  - simpl. intros _. destruct (decide (rd = ∅)) as [->|Hne].
    + right. split; [by right | done].
    + left. exists TypeError. split; [by left|].
      assert (size rd <> 0) as Hsize by by apply map_size_non_empty_iff.
      destruct (size rd); [done|]. simpl.
      destruct (map_to_list rd) as [|[k v] l] eqn:Hl;
        [by apply map_to_list_empty_iff in Hl|].
      done.
Qed.

(** A result that is an empty string or an empty dictionary has length 0
    and is taken for an empty list. *)
Lemma process_prometheus_alerts_empty_result (q : value) (st : state) :
  result_of q = Some (VStr EmptyString) \/ result_of q = Some (VDict ∅) ->
  process_prometheus_alerts q st
  = (Return tt,
     with_status "healthy"
       (logged (LogRecord INFO "No alerts in Prometheus" NoArg) st)).
Proof.
  intros Hres.
  assert (exists r, result_of q = Some r /\ len r = Return 0%nat)
    as (r & Hr & Hlen).
  { destruct Hres as [Hres|Hres]; eexists; (split; [exact Hres|]); done. }
  destruct (subscript_result_of _ _ Hr) as (data & Hdata & Hresult).
  unfold process_prometheus_alerts, bind, lift.
  by rewrite Hdata, Hresult, Hlen.
Qed.

(** A cycle whose response is decoded: the payload, if it is truthy, goes
    to the evaluation. *)
Lemma start_decoded
    (w : world) (st : state) (url text : string) (q : value) :
  prometheus_url st = Some url ->
  requests_get w (alert_path url) = Return text ->
  text <> EmptyString ->
  json_loads w text = Return q ->
  start w st
  = if truthy q then process_prometheus_alerts q st else (Return tt, st).
Proof.
  intros Hurl Hget Htext Hloads.
  assert (truthy (VStr text) = true) as Htruthy.
  { simpl. apply negb_true_iff. by apply String.eqb_neq. }
  fetch Hurl Hget. cbv beta iota delta [response_text ret].
  rewrite Htruthy. unfold json_prometheus_response, try_except, lift.
  rewrite Hloads. by destruct (truthy q).
Qed.

(** C5.  A cycle whose response decodes to a payload that is not of the
    nested shape.  If the payload is falsy, nothing is evaluated and nothing
    changes.  If its result is an empty string or an empty dictionary, the
    verdict healthy is stored and the route answers healthy.  In every other
    case [KeyError] or [TypeError] leaves [start] and the route, with nothing
    changed.  In no case is the verdict of a decode failure stored. *)
Theorem start_ill_shaped_payload
    (w : world) (st : state) (url text : string) (q : value) :
  prometheus_url st = Some url ->
  requests_get w (alert_path url) = Return text ->
  text <> EmptyString ->
  json_loads w text = Return q ->
  well_shaped q = false ->
  (truthy q = false -> start w st = (Return tt, st))
  /\ (truthy q = true ->
      result_of q = Some (VStr EmptyString) \/ result_of q = Some (VDict ∅) ->
      start w st
      = (Return tt,
         with_status "healthy"
           (logged (LogRecord INFO "No alerts in Prometheus" NoArg) st))
      /\ return_status w st
         = (Return "healthy",
            with_status "healthy"
              (logged (LogRecord INFO "No alerts in Prometheus" NoArg) st)))
  /\ (truthy q = true ->
      result_of q <> Some (VStr EmptyString) ->
      result_of q <> Some (VDict ∅) ->
      exists e,
        shape_error e
        /\ start w st = (Raise e, st)
        /\ return_status w st = (Raise e, st)).
Proof.
  intros Hurl Hget Htext Hloads Hshape.
  pose proof (start_decoded w st url text q Hurl Hget Htext Hloads) as Hstart.
  split; [|split].
  - intros Hq. by rewrite Hstart, Hq.
  - intros Hq Hres. rewrite Hq in Hstart.
    rewrite (process_prometheus_alerts_empty_result q st Hres) in Hstart.
    split; [exact Hstart|]. by apply return_status_after_start.
  - intros Hq Hstr Hdict. rewrite Hq in Hstart.
    destruct (process_prometheus_alerts_ill_shaped q st Hshape)
      as [(e & He & Hrun)|[[Hres|Hres] _]]; [|done|done].
    exists e. split; [done|]. rewrite Hrun in Hstart. split; [exact Hstart|].
    unfold return_status, bind. by rewrite Hstart.
Qed.

Lemma start_ill_shaped_payload_witness :
  return_status (test_world (answers error_response))
    test_clusterhealthz_instance
  = (Raise (KeyError "data"), test_clusterhealthz_instance).
Proof.
  assert (error_response <> EmptyString) as Htext by discriminate.
  assert (json.loads error_response = Return error_payload) as Hloads
    by (vm_compute; reflexivity).
  destruct (start_ill_shaped_payload (test_world (answers error_response))
              test_clusterhealthz_instance default_prometheus_url
              error_response error_payload eq_refl eq_refl Htext Hloads
              eq_refl)
    as (_ & _ & Hraises).
  destruct Hraises as (e & _ & Hstart & Hroute);
    [reflexivity | discriminate | discriminate |].
  rewrite Hroute. revert Hstart. vm_compute. intros [= <-]. reflexivity.
Defined.

(** Against C5 as stated: the answer Prometheus gives to a rejected query
    decodes to a dictionary without ["data"]; the cycle neither stores the
    verdict of a decode failure nor ends: [KeyError] leaves the route. *)
Lemma error_response_raises :
  json.loads error_response = Return error_payload
  /\ well_shaped error_payload = false
  /\ return_status (test_world (answers error_response))
       test_clusterhealthz_instance
     = (Raise (KeyError "data"), test_clusterhealthz_instance).
Proof. by vm_compute. Qed.

(** ** The stored verdict *)

Lemma fails_closed_ret {A} (a : A) : fails_closed (ret a).
Proof. intros st. by left. Qed.

Lemma fails_closed_raise {A} (e : exn) : fails_closed (@raise A e).
Proof. intros st. by left. Qed.

Lemma fails_closed_lift {A} (r : result A) : fails_closed (lift r).
Proof. intros st. by left. Qed.

Lemma fails_closed_logging lv text a : fails_closed (logging lv text a).
Proof. intros st. by left. Qed.

Lemma fails_closed_getattr {A} name (field : state -> option A) :
  fails_closed (getattr name field).
Proof. intros st. unfold getattr. left. by destruct (field st). Qed.

Lemma fails_closed_set_status : fails_closed (set_status "unhealthy").
Proof. intros st. by right. Qed.

Lemma fails_closed_bind {A B} (m : M A) (k : A -> M B) :
  fails_closed m -> (forall a, fails_closed (k a)) -> fails_closed (bind m k).
Proof.
  intros Hm Hk st. unfold bind. specialize (Hm st).
  destruct (m st) as [[a|e] st1]; [|done].
  specialize (Hk a st1). simpl in *. destruct Hk as [->|Hk]; [done | by right].
Qed.

Lemma fails_closed_try_except {A} (body : M A) handler :
  fails_closed body ->
  (forall e h, handler e = Some h -> fails_closed h) ->
  fails_closed (try_except body handler).
Proof.
  intros Hbody Hhandler st. unfold try_except. specialize (Hbody st).
  destruct (body st) as [[a|e] st1]; [done|].
  destruct (handler e) as [h|] eqn:Hh; [|done].
  specialize (Hhandler e h Hh st1). simpl in *.
  destruct Hhandler as [->|Hh']; [done | by right].
Qed.

Lemma fails_closed_publishes {A} (m : M A) : fails_closed m -> publishes m.
Proof. intros Hm st. destruct (Hm st); [by left | by right; left]. Qed.

Lemma publishes_set_status : publishes (set_status "healthy").
Proof. intros st. right. right. split; [done | by exists tt]. Qed.

Lemma publishes_bind {A B} (m : M A) (k : A -> M B) :
  fails_closed m -> (forall a, publishes (k a)) -> publishes (bind m k).
Proof.
  intros Hm Hk st. unfold bind. specialize (Hm st).
  destruct (m st) as [[a|e] st1];
    [|destruct Hm; [by left | by right; left]].
  specialize (Hk a st1). simpl in *.
  destruct Hk as [->|[Hk|Hk]]; [|by right; left | by right; right].
  destruct Hm; [by left | by right; left].
Qed.

Create HintDb verdict.

#[local] Hint Resolve fails_closed_ret fails_closed_raise fails_closed_lift
  fails_closed_logging fails_closed_getattr fails_closed_set_status
  publishes_set_status : verdict.

(** Goes through a method along its binds, handlers and branches. *)
Ltac verdict :=
  repeat first
    [ solve [auto with verdict]
    | apply fails_closed_bind; [|intros ?]
    | apply fails_closed_try_except; [|intros [] ? [= <-]]
    | apply publishes_bind; [|intros ?]
    | match goal with
      | |- fails_closed (match ?x with _ => _ end) => destruct x
      | |- publishes (match ?x with _ => _ end) => destruct x
      | |- fails_closed (if ?b then _ else _) => destruct b
      | |- publishes (if ?b then _ else _) => destruct b
      end
    | apply fails_closed_publishes ].

Lemma get_prometheus_alerts_fails_closed (w : world) :
  fails_closed (get_prometheus_alerts w).
Proof. unfold get_prometheus_alerts, response_text. verdict. Qed.

Lemma json_prometheus_response_fails_closed (w : world) (s : string) :
  fails_closed (json_prometheus_response w s).
Proof. unfold json_prometheus_response. verdict. Qed.

Lemma process_prometheus_alerts_publishes (q : value) :
  publishes (process_prometheus_alerts q).
Proof. unfold process_prometheus_alerts. verdict. Qed.

Lemma start_publishes (w : world) : publishes (start w).
Proof.
  unfold start.
  apply publishes_bind; [apply get_prometheus_alerts_fails_closed|].
  intros [text|]; [|verdict]. destruct (truthy (VStr text)); [|verdict].
  apply publishes_bind; [apply json_prometheus_response_fails_closed|].
  intros v. destruct (truthy v); [|verdict].
  apply process_prometheus_alerts_publishes.
Qed.

Lemma status_keeps_state (st : state) : (status st).2 = st.
Proof. unfold status, getattr. by destruct (_status st). Qed.

Lemma return_status_publishes (w : world) : publishes (return_status w).
Proof.
  intros st. unfold return_status, bind.
  pose proof (start_publishes w st) as Hstart.
  destruct (start w st) as [[[]|e] st1]; simpl in Hstart.
  - rewrite status_keeps_state.
    destruct Hstart as [H|[H|[H _]]]; [by left | by right; left|].
    right; right. split; [done|].
    unfold status, getattr. rewrite H. by eexists.
  - destruct Hstart as [H|[H|[_ [a Ha]]]]; [by left | by right; left | done].
Qed.

Lemma process_configuration_keeps_status (c : value) (st : state) :
  _status (process_configuration c st).2 = _status st.
Proof.
  unfold process_configuration, bind, lift.
  destruct c as [| | | | |xs|]; try done. by destruct (strip_each xs).
Qed.

Lemma open_configuration_keeps_status w p (st : state) :
  _status (open_configuration w p st).2 = _status st.
Proof.
  rewrite open_configuration_eq. cbv zeta.
  destruct (opened_path w p) as [path|e]; [|done].
  destruct (readlines w path) as [lines|[]]; try done.
  by rewrite process_configuration_keeps_status.
Qed.

Lemma signal_handler_keeps_status w (st : state) :
  _status (signal_handler w st).2 = _status st.
Proof.
  unfold signal_handler, bind, logging.
  by rewrite open_configuration_keeps_status.
Qed.

(** What a call does to the stored verdict. *)
Lemma step_status (w : world) (c : call) (st st' : state) :
  step w c st st' ->
  _status st' = _status st
  \/ _status st' = Some "unhealthy"
  \/ (_status st' = Some "healthy" /\ completes_cycle w c st).
Proof.
  destruct 1.
  - left. apply signal_handler_keeps_status.
  - left. apply open_configuration_keeps_status.
  - left. apply process_configuration_keeps_status.
  - destruct (start_publishes w st) as [H|[H|[H [[] Hr]]]];
      [by left | by right; left | by right; right].
  - destruct (get_prometheus_alerts_fails_closed w st);
      [by left | by right; left].
  - destruct (json_prometheus_response_fails_closed w s st);
      [by left | by right; left].
  - destruct (process_prometheus_alerts_publishes q st) as [H|[H|[H [[] Hr]]]];
      [by left | by right; left | by right; right].
  - destruct (return_status_publishes w st) as [H|[H|[H [v Hr]]]];
      [by left | by right; left | right; right; split; [done | by exists v]].
Qed.

(** The constructor, by what finding, opening and reading the configuration
    and installing the handler give: it returns exactly when the
    configuration can be read and the handler installed. *)
Lemma init_eq (w : world) (url : string) :
  __init__ w url new
  = match default_configuration w with
    | Return path =>
        match readlines w path with
        | Return lines =>
            let log :=
              [LogRecord INFO "Starting ClusterHealthz" NoArg;
               LogRecord INFO "Attempting to open the alert configuration"
                 NoArg;
               LogRecord INFO "Setting cluster critical alarms to: {}"
                 (Arg (VList (VStr <$> (strip NL <$> lines))))] in
            match signal_signal w with
            | Return _ =>
                (Return tt,
                 State (Some url) (Some (strip NL <$> lines))
                   (Some "unhealthy") true log)
            | Raise e =>
                (Raise e,
                 State (Some url) (Some (strip NL <$> lines))
                   (Some "unhealthy") false log)
            end
        | Raise e =>
            (Raise match e with
                   | FileNotFoundError => SystemExit 1
                   | _ => e
                   end,
             (__init__ w url new).2)
        end
    | Raise e => (Raise e, (__init__ w url new).2)
    end.
Proof.
  unfold __init__, bind, logging, set_prometheus_url.
  rewrite open_configuration_eq. cbv zeta. unfold opened_path.
  destruct (default_configuration w) as [path|e]; [|done].
  destruct (readlines w path) as [lines|e].
  - rewrite process_configuration_lines. cbn.
    by destruct (signal_signal w) as [[]|e].
  - by destruct e.
Qed.

Lemma init_status (w : world) (url : string) (st : state) :
  __init__ w url new = (Return tt, st) -> _status st = Some "unhealthy".
Proof.
  rewrite init_eq.
  destruct (default_configuration w) as [path|]; [|done].
  destruct (readlines w path); [|done]. cbv zeta.
  destruct (signal_signal w); [|done].
  by intros [= <-].
Qed.

(** C8.  After the constructor has returned, and as long as no evaluation
    has run to its end, the getter of [status] returns unhealthy. *)
Theorem verdict_before_first_cycle (st : state) :
  reachable before_first_cycle st ->
  status st = (Return "unhealthy", st).
Proof.
  intros Hreach.
  assert (_status st = Some "unhealthy") as Hst.
  { induction Hreach as [w url st Hinit|w c st st' _ IH Hallowed Hstep].
    - by apply init_status in Hinit.
    - destruct (step_status w c st st' Hstep) as [H|[H|[_ H]]];
        [by rewrite H | done | by destruct Hallowed]. }
  unfold status, getattr. by rewrite Hst.
Qed.

(** C9.  The stored verdict of an instance is one of the two strings
    healthy and unhealthy, whatever has been called on it, and the getter of
    [status] returns that string. *)
Theorem stored_verdict_is_a_verdict (st : state) :
  reachable any_call st ->
  verdict st
  /\ exists v,
      status st = (Return v, st) /\ (v = "healthy" \/ v = "unhealthy").
Proof.
  intros Hreach.
  assert (verdict st) as Hst.
  { induction Hreach as [w url st Hinit|w c st st' _ IH _ Hstep].
    - right. by apply init_status in Hinit.
    - destruct (step_status w c st st' Hstep) as [H|[H|[H _]]];
        [by unfold verdict; rewrite H | by right | by left]. }
  split; [done|].
  unfold status, getattr.
  destruct Hst as [Hst|Hst]; rewrite Hst; eexists; split; eauto.
Qed.

(** The test instance is a constructed instance. *)
Lemma test_clusterhealthz_instance_constructed allowed :
  reachable allowed test_clusterhealthz_instance.
Proof.
  apply (reachable_init allowed (test_world (answers no_alerts))
           default_prometheus_url).
  reflexivity.
Qed.

Lemma verdict_before_first_cycle_witness :
  status
    (start (test_world (answers error_response))
       (signal_handler (test_world (answers no_alerts))
          test_clusterhealthz_instance).2).2
  = (Return "unhealthy",
     (start (test_world (answers error_response))
        (signal_handler (test_world (answers no_alerts))
           test_clusterhealthz_instance).2).2).
Proof.
  apply verdict_before_first_cycle.
  apply (reachable_step _ (test_world (answers error_response)) Start
           (signal_handler (test_world (answers no_alerts))
              test_clusterhealthz_instance).2).
  - apply (reachable_step _ (test_world (answers no_alerts)) SIGHUP
             test_clusterhealthz_instance).
    + apply test_clusterhealthz_instance_constructed.
    + intros [].
    + apply step_sighup. reflexivity.
  - intros Hcompletes. vm_compute in Hcompletes. discriminate Hcompletes.
  - apply step_start.
Defined.

Lemma stored_verdict_is_a_verdict_witness :
  verdict healthy_instance
  /\ exists v,
      status healthy_instance = (Return v, healthy_instance)
      /\ (v = "healthy" \/ v = "unhealthy").
Proof.
  apply stored_verdict_is_a_verdict.
  apply (reachable_step _ (test_world (answers no_alerts)) Start
           test_clusterhealthz_instance).
  - apply test_clusterhealthz_instance_constructed.
  - exact I.
  - apply step_start.
Defined.

(** ** What a cycle and a reload leave alone *)

Section Frame.

Context {C : Type} (f : state -> C).

Lemma keeps_ret {A} (a : A) : keeps f (ret a).
Proof. by intros st. Qed.

Lemma keeps_raise {A} (e : exn) : keeps f (@raise A e).
Proof. by intros st. Qed.

Lemma keeps_lift {A} (r : result A) : keeps f (lift r).
Proof. by intros st. Qed.

Lemma keeps_getattr {A} name (field : state -> option A) :
  keeps f (getattr name field).
Proof. intros st. unfold getattr. by destruct (field st). Qed.

Lemma keeps_bind {A B} (m : M A) (k : A -> M B) :
  keeps f m -> (forall a, keeps f (k a)) -> keeps f (bind m k).
Proof.
  intros Hm Hk st. unfold bind. specialize (Hm st).
  destruct (m st) as [[a|e] st1]; [|done].
  specialize (Hk a st1). simpl in *. congruence.
Qed.

Lemma keeps_try_except {A} (body : M A) handler :
  keeps f body ->
  (forall e h, handler e = Some h -> keeps f h) ->
  keeps f (try_except body handler).
Proof.
  intros Hbody Hhandler st. unfold try_except. specialize (Hbody st).
  destruct (body st) as [[a|e] st1]; [done|].
  destruct (handler e) as [h|] eqn:Hh; [|done].
  specialize (Hhandler e h Hh st1). simpl in *. congruence.
Qed.

(** [f] does not look at the log. *)
Hypothesis f_logged : forall r st, f (logged r st) = f st.

Lemma keeps_logging lv text a : keeps f (logging lv text a).
Proof. intros st. apply f_logged. Qed.

Section Cycle.

(** [f] does not look at the stored verdict. *)
Hypothesis f_with_status : forall v st, f (with_status v st) = f st.

Lemma keeps_set_status v : keeps f (set_status v).
Proof. intros st. apply f_with_status. Qed.

End Cycle.

Section Configuration.

(** [f] does not look at the watch list. *)
Hypothesis f_with_alerts : forall v st, f (with_alerts v st) = f st.

Lemma keeps_set_alerts v : keeps f (set_alerts v).
Proof. intros st. apply f_with_alerts. Qed.

End Configuration.

End Frame.

(** Goes through a method along its binds, handlers and branches. *)
Ltac frame :=
  repeat first
    [ apply keeps_bind; [|intros ?]
    | apply keeps_try_except; [|intros [] ? [= <-]]
    | apply keeps_getattr
    | apply keeps_ret
    | apply keeps_raise
    | apply keeps_lift
    | apply keeps_logging; solve [auto]
    | apply keeps_set_status; solve [auto]
    | apply keeps_set_alerts; solve [auto]
    | match goal with
      | |- keeps _ (match ?x with _ => _ end) => destruct x
      | |- keeps _ (if ?b then _ else _) => destruct b
      end ].

(** What neither looks at the log nor at the stored verdict is left alone by
    the calls of a cycle. *)
Lemma cycle_keeps {C} (f : state -> C) (w : world) (c : call) (st st' : state) :
  (forall r st, f (logged r st) = f st) ->
  (forall v st, f (with_status v st) = f st) ->
  step w c st st' ->
  match c with
  | Start | GetPrometheusAlerts | JsonPrometheusResponse _
  | ProcessPrometheusAlerts _ | ReturnStatus => f st' = f st
  | _ => True
  end.
Proof.
  intros Hlog Hstatus.
  destruct 1; try done;
    match goal with
    | |- f (?m _).2 = _ => generalize st; change (keeps f m)
    end;
    unfold return_status, status, start, get_prometheus_alerts,
      json_prometheus_response, process_prometheus_alerts, response_text;
    frame.
Qed.

(** What neither looks at the log nor at the watch list is left alone by
    the calls of configuration. *)
Lemma configuration_keeps {C} (f : state -> C) (w : world) (c : call)
    (st st' : state) :
  (forall r st, f (logged r st) = f st) ->
  (forall v st, f (with_alerts v st) = f st) ->
  step w c st st' ->
  match c with
  | SIGHUP | OpenConfiguration _ | ProcessConfiguration _ => f st' = f st
  | _ => True
  end.
Proof.
  intros Hlog Halerts.
  destruct 1; try done;
    match goal with
    | |- f (?m _).2 = _ => generalize st; change (keeps f m)
    end;
    unfold signal_handler, open_configuration, process_configuration,
      sys_exit;
    frame.
Qed.

(** Configuration never unsets the watch list. *)
Lemma process_configuration_alerts (c : value) (st : state) :
  is_Some (alerts st) -> is_Some (alerts (process_configuration c st).2).
Proof.
  unfold process_configuration, bind, lift.
  destruct c as [| | | | |xs|]; try done. by destruct (strip_each xs).
Qed.

Lemma open_configuration_alerts w p (st : state) :
  is_Some (alerts st) -> is_Some (alerts (open_configuration w p st).2).
Proof.
  rewrite open_configuration_eq. cbv zeta.
  destruct (opened_path w p) as [path|e]; [|done].
  destruct (readlines w path) as [lines|[]]; try done.
  intros Hst. by apply process_configuration_alerts.
Qed.

(** A constructed instance stays constructed, whatever is called on it: the
    address of the backend and the handler stay, the watch list stays set
    and is assigned by configuration only, the verdict stays set. *)
Lemma step_constructed (w : world) (c : call) (st st' : state) :
  step w c st st' ->
  constructed st ->
  constructed st'
  /\ prometheus_url st' = prometheus_url st
  /\ (~ configuration_call c -> alerts st' = alerts st).
Proof.
  intros Hstep (Hurl & Halerts & Hstatus & Hsighup).
  pose proof (cycle_keeps prometheus_url w c st st') as Hurl_cycle.
  pose proof (cycle_keeps sighup w c st st') as Hsighup_cycle.
  pose proof (cycle_keeps alerts w c st st') as Halerts_cycle.
  pose proof (configuration_keeps prometheus_url w c st st') as Hurl_conf.
  pose proof (configuration_keeps sighup w c st st') as Hsighup_conf.
  pose proof (step_status w c st st' Hstep) as Hverdict.
  assert (is_Some (_status st')) as Hstatus'.
  { destruct Hverdict as [H|[H|[H _]]]; rewrite H; eauto. }
  assert (is_Some (alerts st')) as Halerts'.
  { destruct Hstep; try (rewrite Halerts_cycle; by eauto using step).
    - unfold signal_handler, bind, logging.
      by apply open_configuration_alerts.
    - by apply open_configuration_alerts.
    - by apply process_configuration_alerts. }
  destruct c; simpl in *;
    (split; [repeat split; try done|split]);
    try (rewrite Hurl_cycle by done);
    try (rewrite Hurl_conf by done);
    try (rewrite Hsighup_cycle by done);
    try (rewrite Hsighup_conf by done);
    try done; try (by intros []); try (intros _; by apply Halerts_cycle).
Qed.

Lemma init_constructed (w : world) (url : string) (st : state) :
  __init__ w url new = (Return tt, st) -> constructed st.
Proof.
  rewrite init_eq.
  destruct (default_configuration w) as [path|]; [|done].
  destruct (readlines w path); [|done]. cbv zeta.
  destruct (signal_signal w); [|done].
  intros [= <-]. by repeat split.
Qed.

(** Every reachable state is that of a constructed instance. *)
Lemma reachable_constructed allowed (st : state) :
  reachable allowed st -> constructed st.
Proof.
  induction 1 as [w url st Hinit|w c st st' _ IH _ Hstep].
  - by apply init_constructed in Hinit.
  - by apply (step_constructed w c st st').
Qed.

(** ** The scenarios of the specification and of the test suite *)

(** The decoder on the fixtures: dictionaries for the two feeds, nothing for
    [narp]. *)
Example json_encoding_of_valid_prometheus_response :
  (exists d, json.loads valid_prometheus_alerts_non_impacting = Return (VDict d))
  /\ (exists d, json.loads no_alerts = Return (VDict d))
  /\ json.loads invalid_prometheus_response = Raise JSONDecodeError.
Proof. repeat split; vm_compute; eauto. Qed.

(** An impacting alert is firing: unhealthy. *)
Example active_alerts_cluster_impacting :
  return_status (test_world (answers valid_prometheus_alerts_impacting))
    healthy_instance
  = (Return "unhealthy",
     (start (test_world (answers valid_prometheus_alerts_impacting))
        healthy_instance).2).
Proof. by vm_compute. Qed.

(** Only other alerts are firing: healthy. *)
Example active_alerts_non_cluster_impacting :
  return_status (test_world (answers valid_prometheus_alerts_non_impacting))
    test_clusterhealthz_instance
  = (Return "healthy",
     (start (test_world (answers valid_prometheus_alerts_non_impacting))
        test_clusterhealthz_instance).2).
Proof. by vm_compute. Qed.

(** No alert is firing: healthy. *)
Example process_prometheus_no_alerts :
  return_status (test_world (answers no_alerts)) test_clusterhealthz_instance
  = (Return "healthy", healthy_instance).
Proof. by vm_compute. Qed.

(** The feed is not JSON: unhealthy. *)
Example invalid_prometheus_response_unhealthy :
  (return_status (test_world (answers invalid_prometheus_response))
     healthy_instance).1
  = Return "unhealthy".
Proof. by vm_compute. Qed.

(** The connection to the backend fails: unhealthy. *)
Example prometheus_connection_failure :
  (return_status (test_world (fails ConnectionError)) healthy_instance).1
  = Return "unhealthy".
Proof. by vm_compute. Qed.

(** The decoder at its limits: arrays nested deeper than the interpreter
    allows and an integer of more digits than [int] converts are not
    [JSONDecodeError]s, and leave the route as they come. *)
Example json_decoder_limits :
  json.loads deeply_nested = Raise (OtherException "RecursionError")
  /\ json.loads long_integer = Raise (OtherException "ValueError")
  /\ json.loads (repeated "7" 4300)
     = Return (VInt (json.Z_of_digits 0 (repeated "7" 4300)))
  /\ return_status (test_world (answers deeply_nested)) healthy_instance
     = (Raise (OtherException "RecursionError"), healthy_instance)
  /\ return_status (test_world (answers long_integer)) healthy_instance
     = (Raise (OtherException "ValueError"), healthy_instance).
Proof. repeat split; vm_compute; reflexivity. Qed.

(** A configuration that is a mapping is refused, a list is accepted. *)
Example process_invalid_and_valid_configuration :
  (process_configuration invalid_configuration test_clusterhealthz_instance).1
  = Raise TypeError
  /\ (process_configuration valid_configuration test_clusterhealthz_instance).1
     = Return tt.
Proof. by vm_compute. Qed.

(** * Further properties *)

(** ** A cycle, from the request to the answer *)

(** [start] after a response with body [text], by what decoding gives. *)
Lemma start_eq (w : world) (st : state) (url text : string) :
  prometheus_url st = Some url ->
  requests_get w (alert_path url) = Return text ->
  start w st
  = if truthy (VStr text) then
      match json_loads w text with
      | Return q =>
          if truthy q then process_prometheus_alerts q st else (Return tt, st)
      | Raise JSONDecodeError =>
          (Return tt,
           with_status "unhealthy"
             (logged
                (LogRecord CRITICAL
                   "JSONDecodeError of the response from Prometheus" NoArg)
                st))
      | Raise e => (Raise e, st)
      end
    else
      (Return tt,
       logged (LogRecord CRITICAL "Could not get alerts from Prometheus" NoArg)
         st).
Proof.
  intros Hurl Hget. fetch Hurl Hget.
  cbv beta iota delta [response_text ret].
  destruct (truthy (VStr text)); [|done].
  unfold json_prometheus_response, try_except, lift.
  destruct (json_loads w text) as [q|[]]; try done.
  by destruct (truthy q).
Qed.

Lemma result_of_truthy (q r : value) :
  result_of q = Some r -> truthy q = true.
Proof.
  unfold result_of. destruct q as [| | | | | |d]; try done.
  destruct (d !! "data") eqn:Hd; [|done]. intros _. simpl.
  apply negb_true_iff, Nat.eqb_neq, map_size_non_empty_iff.
  intros ->. by rewrite lookup_empty in Hd.
Qed.

(** The answer of the route after a response that decodes to a payload of
    the nested shape. *)
Lemma return_status_evaluates
    (w : world) (st : state) (url text : string) (q : value)
    (rs : list value) (wl : list string) :
  prometheus_url st = Some url ->
  requests_get w (alert_path url) = Return text ->
  text <> EmptyString ->
  json_loads w text = Return q ->
  result_of q = Some (VList rs) ->
  forallb alert_record rs = true ->
  alerts st = Some wl ->
  exists st' v,
    return_status w st = (Return v, st')
    /\ alerts st' = alerts st
    /\ _status st' = Some v
    /\ (v = "unhealthy" /\ firing_watched wl rs
        \/ v = "healthy" /\ ~ firing_watched wl rs).
Proof.
  intros Hurl Hget Htext Hloads Hq Hrs Hwl.
  pose proof (start_decoded w st url text q Hurl Hget Htext Hloads) as Hstart.
  rewrite (result_of_truthy _ _ Hq) in Hstart.
  destruct (process_prometheus_alerts_evaluates q st rs wl Hq Hrs Hwl)
    as (st' & v & Hrun & Halerts & _ & Hstatus & Hverdict).
  rewrite Hrun in Hstart.
  exists st', v.
  split; [by apply return_status_after_start|].
  split; [done|]. split; [done|].
  destruct Hverdict as [(-> & _ & Hfiring)|[-> Hnone]];
    [by left | by right].
Qed.

(** The fixture of the impacting alerts, decoded: four records, the first of
    which is [KubernetesMasterDown]. *)
Lemma impacting_decoded :
  json.loads valid_prometheus_alerts_impacting
  = Return (decoded valid_prometheus_alerts_impacting)
  /\ result_of (decoded valid_prometheus_alerts_impacting)
     = Some (VList (records_of (decoded valid_prometheus_alerts_impacting)))
  /\ forallb alert_record
       (records_of (decoded valid_prometheus_alerts_impacting))
     = true
  /\ length (records_of (decoded valid_prometheus_alerts_impacting)) = 4%nat
  /\ exists a,
      records_of (decoded valid_prometheus_alerts_impacting) !! 0%nat = Some a
      /\ name_of a = Some (VStr "KubernetesMasterDown").
Proof.
  split; [vm_compute; reflexivity|].
  split; [vm_compute; reflexivity|].
  split; [vm_compute; reflexivity|].
  split; [vm_compute; reflexivity|].
  eexists. split; vm_compute; reflexivity.
Qed.

(** X1.  When the connection to the backend fails, the route answers
    unhealthy and raises nothing; the watch list stays, and the decoder has
    no part in it: the outcome is the same whatever [json.loads] would
    do. *)
Theorem connection_failure_answers_unhealthy
    (w : world) (st : state) (url : string) :
  prometheus_url st = Some url ->
  requests_get w (alert_path url) = Raise ConnectionError ->
  (exists st',
      return_status w st = (Return "unhealthy", st')
      /\ _status st' = Some "unhealthy"
      /\ alerts st' = alerts st)
  /\ forall loads,
      return_status (World (getcwd w) (readlines w) (requests_get w) loads
                (signal_signal w)) st
      = return_status w st.
Proof.
  intros Hurl Hget. split.
  - unfold return_status, bind.
    rewrite (start_connection_error w st url Hurl Hget).
    eexists. by repeat split.
  - intros loads. unfold return_status, bind.
    rewrite (start_connection_error w st url Hurl Hget).
    by rewrite (start_connection_error
                  (World (getcwd w) (readlines w) (requests_get w) loads
                (signal_signal w))
                  st url Hurl Hget).
Qed.

Lemma connection_failure_answers_unhealthy_witness :
  (return_status (test_world (fails ConnectionError)) healthy_instance).1
  = Return "unhealthy".
Proof.
  destruct (connection_failure_answers_unhealthy
              (test_world (fails ConnectionError)) healthy_instance
              default_prometheus_url eq_refl eq_refl)
    as [(st' & Hrun & _) _].
  by rewrite Hrun.
Defined.

(** X2.  A failure of the request that is neither [socket.gaierror] nor
    [requests.ConnectionError] is not handled: it leaves the route as it
    came, and nothing is logged or stored. *)
Theorem other_fetch_failure_leaves_the_route
    (w : world) (st : state) (url : string) (e : exn) :
  prometheus_url st = Some url ->
  requests_get w (alert_path url) = Raise e ->
  e <> gaierror ->
  e <> ConnectionError ->
  return_status w st = (Raise e, st).
Proof.
  intros Hurl Hget Hgai Hconn. fetch Hurl Hget. by destruct e.
Qed.

Lemma other_fetch_failure_leaves_the_route_witness :
  return_status (test_world (fails (OtherException "Timeout")))
    healthy_instance
  = (Raise (OtherException "Timeout"), healthy_instance).
Proof.
  apply (other_fetch_failure_leaves_the_route _ _ default_prometheus_url);
    [reflexivity | reflexivity | discriminate | discriminate].
Defined.

(** X3.  A cycle that runs to its end: when the response decodes to a
    payload whose result is a list of alert records, the route answers
    unhealthy if an entry of the watch list is the name of one of the
    records and healthy if none is, stores that answer and leaves the watch
    list as it was; the verdict stored before has no part in it. *)
Theorem cycle_answers_the_verdict
    (w : world) (st : state) (url text : string) (q : value)
    (rs : list value) (wl : list string) :
  prometheus_url st = Some url ->
  requests_get w (alert_path url) = Return text ->
  text <> EmptyString ->
  json_loads w text = Return q ->
  result_of q = Some (VList rs) ->
  forallb alert_record rs = true ->
  alerts st = Some wl ->
  exists v st',
    return_status w st = (Return v, st')
    /\ _status st' = Some v
    /\ alerts st' = Some wl
    /\ (v = "unhealthy"
        <-> exists x a, x ∈ wl /\ a ∈ rs /\ name_of a = Some (VStr x))
    /\ (v = "healthy"
        <-> ~ exists x a, x ∈ wl /\ a ∈ rs /\ name_of a = Some (VStr x)).
Proof.
  intros Hurl Hget Htext Hloads Hq Hrs Hwl.
  destruct (return_status_evaluates w st url text q rs wl
              Hurl Hget Htext Hloads Hq Hrs Hwl)
    as (st' & v & Hrun & Halerts & Hstatus & Hverdict).
  exists v, st'. split; [exact Hrun|]. split; [exact Hstatus|].
  split; [congruence|]. fold (firing_watched wl rs).
  destruct Hverdict as [[-> Hfiring]|[-> Hnone]].
  - split; [done|]. split; [done | by intros ?].
  - split; [|done]. split; [done | by intros ?%Hnone].
Qed.

Lemma cycle_answers_the_verdict_witness :
  (return_status (test_world (answers valid_prometheus_alerts_impacting))
     healthy_instance).1
  = Return "unhealthy".
Proof.
  assert (valid_prometheus_alerts_impacting <> EmptyString) as Htext
    by discriminate.
  destruct impacting_decoded as (Hloads & Hq & Hrs & _ & a & Ha & Hname).
  destruct (cycle_answers_the_verdict
              (test_world (answers valid_prometheus_alerts_impacting))
              healthy_instance default_prometheus_url
              valid_prometheus_alerts_impacting
              (decoded valid_prometheus_alerts_impacting)
              (records_of (decoded valid_prometheus_alerts_impacting))
              ["KubernetesMasterDown"]
              eq_refl eq_refl Htext Hloads Hq Hrs eq_refl)
    as (v & st' & Hrun & _ & _ & Hunhealthy & _).
  rewrite Hrun. simpl. f_equal. apply Hunhealthy.
  exists "KubernetesMasterDown", a.
  split; [apply list_elem_of_here|]. split; [|exact Hname].
  by eapply list_elem_of_lookup_2.
Defined.

(** X4.  A cycle whose response is not JSON: the route answers unhealthy
    and raises nothing, whatever verdict was stored; the watch list stays. *)
Theorem undecodable_response_answers_unhealthy
    (w : world) (st : state) (url text : string) :
  prometheus_url st = Some url ->
  requests_get w (alert_path url) = Return text ->
  text <> EmptyString ->
  json_loads w text = Raise JSONDecodeError ->
  exists st',
    return_status w st = (Return "unhealthy", st')
    /\ _status st' = Some "unhealthy"
    /\ alerts st' = alerts st.
Proof.
  intros Hurl Hget Htext Hloads.
  unfold return_status, bind. rewrite (start_eq w st url text Hurl Hget).
  assert (truthy (VStr text) = true) as ->.
  { simpl. apply negb_true_iff. by apply String.eqb_neq. }
  rewrite Hloads. eexists. by repeat split.
Qed.

Lemma undecodable_response_answers_unhealthy_witness :
  (return_status (test_world (answers invalid_prometheus_response))
     healthy_instance).1
  = Return "unhealthy".
Proof.
  assert (invalid_prometheus_response <> EmptyString) as Htext by discriminate.
  destruct (undecodable_response_answers_unhealthy
              (test_world (answers invalid_prometheus_response))
              healthy_instance default_prometheus_url
              invalid_prometheus_response eq_refl eq_refl Htext eq_refl)
    as (st' & Hrun & _).
  by rewrite Hrun.
Defined.

(** X5.  A failure of the decoder that is not [JSONDecodeError] is not
    handled: it leaves the route as it came, and nothing is logged or
    stored. *)
Theorem other_decoder_failure_leaves_the_route
    (w : world) (st : state) (url text : string) (e : exn) :
  prometheus_url st = Some url ->
  requests_get w (alert_path url) = Return text ->
  text <> EmptyString ->
  json_loads w text = Raise e ->
  e <> JSONDecodeError ->
  return_status w st = (Raise e, st).
Proof.
  intros Hurl Hget Htext Hloads He.
  unfold return_status, bind. rewrite (start_eq w st url text Hurl Hget).
  assert (truthy (VStr text) = true) as ->.
  { simpl. apply negb_true_iff. by apply String.eqb_neq. }
  rewrite Hloads. by destruct e.
Qed.

Lemma other_decoder_failure_leaves_the_route_witness :
  return_status (test_world (answers deeply_nested)) healthy_instance
  = (Raise (OtherException "RecursionError"), healthy_instance).
Proof.
  assert (deeply_nested <> EmptyString) as Htext by discriminate.
  assert (json.loads deeply_nested = Raise (OtherException "RecursionError"))
    as Hloads by (vm_compute; reflexivity).
  apply (other_decoder_failure_leaves_the_route
           (test_world (answers deeply_nested)) healthy_instance
           default_prometheus_url deeply_nested);
    [reflexivity | reflexivity | exact Htext | exact Hloads | discriminate].
Defined.

(** X13.  A call of the route, however it ends, leaves the watch list, the
    address of the backend and the installed handler as they were: a cycle
    writes nothing but the stored verdict and the log. *)
Theorem route_keeps_configuration (w : world) (st : state) :
  alerts (return_status w st).2 = alerts st
  /\ prometheus_url (return_status w st).2 = prometheus_url st
  /\ sighup (return_status w st).2 = sighup st.
Proof.
  pose proof (step_return_status w st) as Hstep.
  repeat split.
  - by apply (cycle_keeps alerts w ReturnStatus st _).
  - by apply (cycle_keeps prometheus_url w ReturnStatus st _).
  - by apply (cycle_keeps sighup w ReturnStatus st _).
Qed.

(** ** Evaluation and the watch list *)

Lemma existsb_same_entries {A} (f : A -> bool) (l l' : list A) :
  (forall x, x ∈ l -> x ∈ l') ->
  existsb f l = true -> existsb f l' = true.
Proof.
  intros Hsub (x & Hx & Hf)%existsb_exists. apply existsb_exists.
  exists x. split; [|done]. by apply list_elem_of_In, Hsub, list_elem_of_In.
Qed.

(** X10.  The evaluation looks at the watch list as a set: two watch lists
    with the same entries, in whatever order and however often repeated,
    give the same outcome and the same verdict. *)
Theorem verdict_takes_watch_list_as_set
    (q : value) (st st' : state) (wl wl' : list string) :
  alerts st = Some wl ->
  alerts st' = Some wl' ->
  (forall x, x ∈ wl <-> x ∈ wl') ->
  _status st = _status st' ->
  (process_prometheus_alerts q st).1 = (process_prometheus_alerts q st').1
  /\ _status (process_prometheus_alerts q st).2
     = _status (process_prometheus_alerts q st').2.
Proof.
  intros Hwl Hwl' Hsame Hstatus.
  unfold process_prometheus_alerts, bind, lift, getattr.
  destruct (subscript q "data") as [data|]; [|done].
  destruct (subscript data "result") as [r|]; [|done].
  destruct (len r) as [n|]; [|done].
  destruct (n =? 0)%nat; [done|].
  destruct (iter r) as [items|]; [|done].
  destruct (alert_names items) as [names|]; [|done].
  rewrite Hwl, Hwl'.
  assert (existsb (fun x => str_in x names) wl
          = existsb (fun x => str_in x names) wl') as ->; [|by destruct existsb].
  destruct (existsb _ wl) eqn:H1, (existsb _ wl') eqn:H2; try done.
  - apply (existsb_same_entries _ wl wl') in H1; [congruence|]. apply Hsame.
  - apply (existsb_same_entries _ wl' wl) in H2; [congruence|]. apply Hsame.
Qed.

Lemma verdict_takes_watch_list_as_set_witness :
  _status
    (process_prometheus_alerts master_down_feed
       (with_alerts ["KubernetesMasterDown"; "AlertOne"]
          test_clusterhealthz_instance)).2
  = _status
      (process_prometheus_alerts master_down_feed
         (with_alerts ["AlertOne"; "KubernetesMasterDown"; "AlertOne"]
            test_clusterhealthz_instance)).2.
Proof.
  apply (verdict_takes_watch_list_as_set master_down_feed
           (with_alerts ["KubernetesMasterDown"; "AlertOne"]
              test_clusterhealthz_instance)
           (with_alerts ["AlertOne"; "KubernetesMasterDown"; "AlertOne"]
              test_clusterhealthz_instance)
           ["KubernetesMasterDown"; "AlertOne"]
           ["AlertOne"; "KubernetesMasterDown"; "AlertOne"]
           eq_refl eq_refl); [|reflexivity].
  intros x. rewrite !elem_of_cons, !elem_of_nil. tauto.
Defined.

(** X11.  Adding entries to the watch list never turns an unhealthy verdict
    into a healthy one: if the evaluation of a payload stores unhealthy
    under a watch list, it does so under every watch list that holds all its
    entries. *)
Theorem watch_list_is_monotone
    (q : value) (st st' st1 : state) (wl wl' : list string) :
  alerts st = Some wl ->
  alerts st' = Some wl' ->
  (forall x, x ∈ wl -> x ∈ wl') ->
  process_prometheus_alerts q st = (Return tt, st1) ->
  _status st1 = Some "unhealthy" ->
  exists st1',
    process_prometheus_alerts q st' = (Return tt, st1')
    /\ _status st1' = Some "unhealthy".
Proof.
  intros Hwl Hwl' Hsub.
  unfold process_prometheus_alerts, bind, lift, getattr.
  destruct (subscript q "data") as [data|]; [|done].
  destruct (subscript data "result") as [r|]; [|done].
  destruct (len r) as [n|]; [|done].
  destruct (n =? 0)%nat; [by intros [= <-]|].
  destruct (iter r) as [items|]; [|done].
  destruct (alert_names items) as [names|]; [|done].
  rewrite Hwl, Hwl'.
  destruct (existsb _ wl) eqn:H1; [|by intros [= <-]].
  apply (existsb_same_entries _ wl wl' Hsub) in H1. rewrite H1.
  intros _ _. by eexists.
Qed.

Lemma watch_list_is_monotone_witness :
  exists st1',
    process_prometheus_alerts master_down_feed
      (with_alerts ["AlertOne"; "KubernetesMasterDown"]
         test_clusterhealthz_instance)
    = (Return tt, st1')
    /\ _status st1' = Some "unhealthy".
Proof.
  apply (watch_list_is_monotone master_down_feed test_clusterhealthz_instance
           (with_alerts ["AlertOne"; "KubernetesMasterDown"]
              test_clusterhealthz_instance)
           (process_prometheus_alerts master_down_feed
                test_clusterhealthz_instance).2
           ["KubernetesMasterDown"] ["AlertOne"; "KubernetesMasterDown"]
           eq_refl eq_refl); [|reflexivity|reflexivity].
  intros x. rewrite !elem_of_cons, !elem_of_nil. tauto.
Defined.

(** X12.  Under an empty watch list every evaluation that returns stores
    healthy, whatever is firing. *)
Theorem empty_watch_list_is_healthy (q : value) (st st1 : state) :
  alerts st = Some [] ->
  process_prometheus_alerts q st = (Return tt, st1) ->
  _status st1 = Some "healthy".
Proof.
  intros Hwl.
  unfold process_prometheus_alerts, bind, lift, getattr.
  destruct (subscript q "data") as [data|]; [|done].
  destruct (subscript data "result") as [r|]; [|done].
  destruct (len r) as [n|]; [|done].
  destruct (n =? 0)%nat; [by intros [= <-]|].
  destruct (iter r) as [items|]; [|done].
  destruct (alert_names items) as [names|]; [|done].
  rewrite Hwl. by intros [= <-].
Qed.

Lemma empty_watch_list_is_healthy_witness :
  _status
    (process_prometheus_alerts master_down_feed
       (with_alerts [] test_clusterhealthz_instance)).2
  = Some "healthy".
Proof.
  apply (empty_watch_list_is_healthy master_down_feed
           (with_alerts [] test_clusterhealthz_instance) _ eq_refl).
  reflexivity.
Defined.

(** ** Construction, configuration and reload *)

(** [signal_handler], when the configuration can be read. *)
Lemma signal_handler_reloads
    (w : world) (st : state) (path : string) (lines : list string) :
  default_configuration w = Return path ->
  readlines w path = Return lines ->
  exists st',
    signal_handler w st = (Return tt, st')
    /\ alerts st' = Some (strip NL <$> lines)
    /\ _status st' = _status st
    /\ prometheus_url st' = prometheus_url st.
Proof.
  intros Hpath Hread. unfold signal_handler, bind, logging.
  rewrite open_configuration_eq. cbv zeta. unfold opened_path.
  rewrite Hpath, Hread, process_configuration_lines. eexists. by repeat split.
Qed.

(** X6.  A reload whose source can be read replaces the watch list as a
    whole by the stripped lines of the source, whatever the watch list was,
    and leaves the stored verdict and the address of the backend alone. *)
Theorem reload_replaces_watch_list
    (w : world) (st : state) (path : string) (lines : list string) :
  default_configuration w = Return path ->
  readlines w path = Return lines ->
  exists st',
    signal_handler w st = (Return tt, st')
    /\ alerts st' = Some (strip NL <$> lines)
    /\ _status st' = _status st
    /\ prometheus_url st' = prometheus_url st.
Proof. apply signal_handler_reloads. Qed.

Lemma reload_replaces_watch_list_witness :
  exists st',
    signal_handler (test_world (answers no_alerts))
      (with_alerts ["AlertOne"] healthy_instance)
    = (Return tt, st')
    /\ alerts st' = Some ["KubernetesMasterDown"]
    /\ _status st' = Some "healthy".
Proof.
  destruct (reload_replaces_watch_list (test_world (answers no_alerts))
              (with_alerts ["AlertOne"] healthy_instance)
              "/srv/config/clusterhealthz.conf"
              ["KubernetesMasterDown" ++ NL] eq_refl eq_refl)
    as (st' & Hrun & Halerts & Hstatus & _).
  exists st'. split; [exact Hrun|]. split.
  - rewrite Halerts. reflexivity.
  - rewrite Hstatus. reflexivity.
Defined.

(** X17.  A reload takes effect with the next query: after a reload whose
    source can be read, a cycle that runs to its end answers unhealthy
    exactly when a stripped line of the new source is the name of a record
    of the firing list, and healthy otherwise; the watch list of before the
    reload has no part in it. *)
Theorem cycle_after_reload
    (w w' : world) (st : state) (path : string) (lines : list string)
    (url text : string) (q : value) (rs : list value) :
  default_configuration w = Return path ->
  readlines w path = Return lines ->
  prometheus_url st = Some url ->
  requests_get w' (alert_path url) = Return text ->
  text <> EmptyString ->
  json_loads w' text = Return q ->
  result_of q = Some (VList rs) ->
  forallb alert_record rs = true ->
  exists v st',
    return_status w' (signal_handler w st).2 = (Return v, st')
    /\ (v = "unhealthy" \/ v = "healthy")
    /\ (v = "unhealthy"
        <-> exists l a,
              l ∈ lines /\ a ∈ rs /\ name_of a = Some (VStr (strip NL l))).
Proof.
  intros Hpath Hread Hurl Hget Htext Hloads Hq Hrs.
  destruct (signal_handler_reloads w st path lines Hpath Hread)
    as (st1 & -> & Halerts & _ & Hurl1).
  rewrite Hurl in Hurl1. cbn [snd].
  destruct (return_status_evaluates w' st1 url text q rs _
              Hurl1 Hget Htext Hloads Hq Hrs Halerts)
    as (st' & v & Hrun & _ & _ & Hverdict).
  exists v, st'. split; [exact Hrun|].
  assert (firing_watched (strip NL <$> lines) rs
          <-> exists l a,
                l ∈ lines /\ a ∈ rs /\ name_of a = Some (VStr (strip NL l)))
    as Hlines.
  { split.
    - intros (x & a & Hx & Ha & Hname).
      apply list_elem_of_fmap in Hx as (l & -> & Hl). by exists l, a.
    - intros (l & a & Hl & Ha & Hname). exists (strip NL l), a.
      split; [|done]. apply list_elem_of_fmap. by exists l. }
  destruct Hverdict as [[-> Hfiring]|[-> Hnone]].
  - split; [by left|]. split; [intros _; by apply Hlines | done].
  - split; [by right|]. split; [done|].
    intros Hfiring. by apply Hlines, Hnone in Hfiring.
Qed.

Lemma cycle_after_reload_witness :
  (return_status (test_world (answers valid_prometheus_alerts_impacting))
     (with_alerts ["AlertOne"] healthy_instance)).1
  = Return "healthy"
  /\ (return_status (test_world (answers valid_prometheus_alerts_impacting))
        (signal_handler (test_world (answers no_alerts))
           (with_alerts ["AlertOne"] healthy_instance)).2).1
     = Return "unhealthy".
Proof.
  split; [vm_compute; reflexivity|].
  assert (valid_prometheus_alerts_impacting <> EmptyString) as Htext
    by discriminate.
  destruct impacting_decoded as (Hloads & Hq & Hrs & _ & a & Ha & Hname).
  destruct (cycle_after_reload (test_world (answers no_alerts))
              (test_world (answers valid_prometheus_alerts_impacting))
              (with_alerts ["AlertOne"] healthy_instance)
              "/srv/config/clusterhealthz.conf"
              ["KubernetesMasterDown" ++ NL] default_prometheus_url
              valid_prometheus_alerts_impacting
              (decoded valid_prometheus_alerts_impacting)
              (records_of (decoded valid_prometheus_alerts_impacting))
              eq_refl eq_refl eq_refl eq_refl Htext Hloads Hq Hrs)
    as (v & st' & Hrun & _ & Hunhealthy).
  rewrite Hrun. simpl. f_equal. apply Hunhealthy.
  exists ("KubernetesMasterDown" ++ NL), a.
  split; [apply list_elem_of_here|]. split; [|exact Hname].
  by eapply list_elem_of_lookup_2.
Defined.

(** X7.  An empty path is no path: [open_configuration] given the empty
    string does what it does given [None], and reads the configuration of
    the working directory. *)
Theorem open_configuration_empty_path (w : world) (st : state) :
  open_configuration w (Some EmptyString) st = open_configuration w None st
  /\ opened_path w (Some EmptyString)
     = match getcwd w with
       | Return cwd => Return (cwd ++ "/config/clusterhealthz.conf")
       | Raise e => Raise e
       end.
Proof. by rewrite !open_configuration_eq. Qed.

Lemma strip_each_not_string (xs : list value) :
  (exists x, x ∈ xs /\ forall s, x <> VStr s) ->
  strip_each xs = Raise (AttributeError "strip").
Proof.
  intros (x & Hx & Hnot). induction Hx as [x xs|x y xs Hx IH]; simpl.
  - destruct x; try done. by destruct (Hnot s).
  - destruct y; try done. simpl. by rewrite (IH Hnot).
Qed.

(** X8.  A configuration list with an item that is not a string is refused
    as a whole: [AttributeError] is raised for the item without a [strip],
    and the watch list, the stored verdict and the log stay untouched,
    however many strings come before it. *)
Theorem process_configuration_not_a_string (xs : list value) (st : state) :
  (exists x, x ∈ xs /\ forall s, x <> VStr s) ->
  process_configuration (VList xs) st = (Raise (AttributeError "strip"), st).
Proof.
  intros Hnot. unfold process_configuration, bind, lift.
  by rewrite (strip_each_not_string xs Hnot).
Qed.

Lemma process_configuration_not_a_string_witness :
  process_configuration (VList [VStr "AlertOne"; VInt 7; VStr "AlertTwo"])
    test_clusterhealthz_instance
  = (Raise (AttributeError "strip"), test_clusterhealthz_instance).
Proof.
  apply process_configuration_not_a_string.
  exists (VInt 7). split; [|discriminate].
  apply list_elem_of_further, list_elem_of_here.
Defined.

Lemma lstrip_fixed (cs s : string) :
  first_in cs s = false -> lstrip cs s = s.
Proof. destruct s as [|a s]; simpl; [done|]. by intros ->. Qed.

Lemma rstrip_fixed (cs s : string) :
  last_in cs s = false -> rstrip cs s = s.
Proof.
  induction s as [|a s IH]; [done|]. simpl.
  destruct s as [|b s]; [by intros ->|].
  intros Hlast. by rewrite (IH Hlast).
Qed.

Lemma strip_strip (cs s : string) : strip cs (strip cs s) = strip cs s.
Proof.
  destruct (strip_decompose cs s) as (_ & _ & _ & _ & _ & Hfirst & Hlast).
  unfold strip at 1. by rewrite (lstrip_fixed _ _ Hfirst), (rstrip_fixed _ _ Hlast).
Qed.

(** X9.  Processing a configuration is idempotent: the watch list made from
    the entries of a watch list is that watch list, since a stripped line has
    nothing left to strip. *)
Theorem process_configuration_idempotent (lines : list string) (st st' : state) :
  alerts
    (process_configuration (VList (VStr <$> (strip NL <$> lines))) st').2
  = alerts (process_configuration (VList (VStr <$> lines)) st).2.
Proof.
  rewrite !process_configuration_lines. simpl. f_equal.
  rewrite <- list_fmap_compose. apply list_fmap_ext.
  intros i l _. apply strip_strip.
Qed.

(** X14.  The constructor fails when the configuration cannot be read, with
    [SystemExit(1)] when it cannot be found and with the error of the read
    otherwise; the object it leaves has no watch list and no verdict, and
    the handler of SIGHUP is not installed. *)
Theorem constructor_fails (w : world) (url path : string) (e : exn) :
  default_configuration w = Return path ->
  readlines w path = Raise e ->
  exists st,
    __init__ w url new
    = (Raise match e with
             | FileNotFoundError => SystemExit 1
             | _ => e
             end, st)
    /\ alerts st = None
    /\ _status st = None
    /\ sighup st = false.
Proof.
  intros Hpath Hread. unfold __init__, bind, logging, set_prometheus_url.
  rewrite open_configuration_eq. cbv zeta. unfold opened_path.
  rewrite Hpath, Hread. destruct e; eexists; by repeat split.
Qed.

Lemma constructor_fails_witness :
  (__init__ (world_without_configuration (answers no_alerts))
     default_prometheus_url new).1
  = Raise (SystemExit 1).
Proof.
  destruct (constructor_fails (world_without_configuration (answers no_alerts))
              default_prometheus_url "/srv/config/clusterhealthz.conf"
              FileNotFoundError eq_refl eq_refl)
    as (st & Hrun & _).
  by rewrite Hrun.
Defined.

(** X15.  When the configuration can be read, the constructor sets the
    address it was given, the stripped lines of the configuration as the
    watch list and the verdict unhealthy, and ends as
    [signal.signal(signal.SIGHUP, ...)] does: if that returns, the
    constructor returns with the handler installed; if that raises (as it
    does outside the main thread), its error leaves the constructor, and
    the handler is not installed. *)
Theorem constructor_returns
    (w : world) (url path : string) (lines : list string) :
  default_configuration w = Return path ->
  readlines w path = Return lines ->
  exists st,
    prometheus_url st = Some url
    /\ alerts st = Some (strip NL <$> lines)
    /\ _status st = Some "unhealthy"
    /\ match signal_signal w with
       | Return _ => __init__ w url new = (Return tt, st) /\ sighup st = true
       | Raise e => __init__ w url new = (Raise e, st) /\ sighup st = false
       end.
Proof.
  intros Hpath Hread. rewrite init_eq, Hpath, Hread. cbv zeta.
  destruct (signal_signal w) as [[]|e]; eexists; by repeat split.
Qed.

Lemma constructor_returns_witness :
  (exists st,
      __init__ (test_world (answers no_alerts)) default_prometheus_url new
      = (Return tt, st)
      /\ alerts st = Some ["KubernetesMasterDown"]
      /\ sighup st = true)
  /\ (exists st,
         __init__ off_main_thread default_prometheus_url new
         = (Raise (OtherException "ValueError"), st)
         /\ _status st = Some "unhealthy"
         /\ sighup st = false).
Proof.
  split.
  - destruct (constructor_returns (test_world (answers no_alerts))
                default_prometheus_url "/srv/config/clusterhealthz.conf"
                ["KubernetesMasterDown" ++ NL] eq_refl eq_refl)
      as (st & _ & Halerts & _ & Hrun & Hsighup).
    exists st. split; [exact Hrun|]. split; [|exact Hsighup].
    rewrite Halerts. reflexivity.
  - destruct (constructor_returns off_main_thread
                default_prometheus_url "/srv/config/clusterhealthz.conf"
                ["KubernetesMasterDown" ++ NL] eq_refl eq_refl)
      as (st & _ & _ & Hstatus & Hrun & Hsighup).
    exists st. by split.
Defined.

(** ** What a cycle reads *)

(** [start] after a request that fails with [e]. *)
Lemma start_fetch_failure (w : world) (st : state) (url : string) (e : exn) :
  prometheus_url st = Some url ->
  requests_get w (alert_path url) = Raise e ->
  start w st
  = match e with
    | gaierror =>
        (Raise (AttributeError "text"),
         with_status "unhealthy"
           (logged
              (LogRecord CRITICAL "Could not resolve Prometheus in DNS" NoArg)
              st))
    | ConnectionError =>
        (Return tt,
         logged
           (LogRecord CRITICAL "Could not get alerts from Prometheus" NoArg)
           (with_status "unhealthy"
              (logged
                 (LogRecord CRITICAL
                    "Could not get the alert data from Prometheus. Path tried was {}"
                    (Arg (VStr (alert_path url))))
                 st)))
    | _ => (Raise e, st)
    end.
Proof. intros Hurl Hget. fetch Hurl Hget. by destruct e. Qed.

(** X22.  A cycle reads the world at one place only: what the route does is
    decided by what the request to the one URL of the backend gives and by
    what the decoder makes of the body of that response.  It reads no file
    and asks for no other URL. *)
Theorem cycle_reads_one_url (w w' : world) (st : state) (url : string) :
  prometheus_url st = Some url ->
  requests_get w (alert_path url) = requests_get w' (alert_path url) ->
  (forall text,
      requests_get w (alert_path url) = Return text ->
      json_loads w text = json_loads w' text) ->
  return_status w st = return_status w' st.
Proof.
  intros Hurl Hget Hloads. unfold return_status, bind.
  destruct (requests_get w (alert_path url)) as [text|e] eqn:Hw.
  - rewrite (start_eq w st url text Hurl Hw).
    rewrite (start_eq w' st url text Hurl (eq_sym Hget)).
    by rewrite (Hloads text eq_refl).
  - rewrite (start_fetch_failure w st url e Hurl Hw).
    by rewrite (start_fetch_failure w' st url e Hurl (eq_sym Hget)).
Qed.

Lemma cycle_reads_one_url_witness :
  return_status (world_without_configuration (answers no_alerts))
    test_clusterhealthz_instance
  = return_status (test_world (answers no_alerts)) test_clusterhealthz_instance.
Proof.
  apply (cycle_reads_one_url _ _ _ default_prometheus_url);
    [reflexivity | reflexivity | intros text _; reflexivity].
Defined.

(** X23.  From the configuration to the answer: an instance constructed
    from a configuration with the line of an alert name (the name, without a
    newline in it, and a final newline) answers unhealthy to a query whose
    cycle finds, among the records of the firing list, one of that name. *)
Theorem listed_alert_answers_unhealthy
    (w w' : world) (url path text body : string) (lines : list string)
    (q : value) (rs : list value) (st : state) :
  default_configuration w = Return path ->
  readlines w path = Return lines ->
  body ++ NL ∈ lines ->
  none_in NL body = true ->
  __init__ w url new = (Return tt, st) ->
  requests_get w' (alert_path url) = Return text ->
  text <> EmptyString ->
  json_loads w' text = Return q ->
  result_of q = Some (VList rs) ->
  forallb alert_record rs = true ->
  (exists a, a ∈ rs /\ name_of a = Some (VStr body)) ->
  exists st', return_status w' st = (Return "unhealthy", st').
Proof.
  intros Hpath Hread Hline Hbody Hinit Hget Htext Hloads Hq Hrs
    (a & Ha & Hname).
  rewrite init_eq, Hpath, Hread in Hinit. cbv zeta in Hinit.
  destruct (signal_signal w); [|done]. injection Hinit as <-.
  match goal with
  | |- context [return_status w' ?s] =>
      destruct (return_status_evaluates w' s url text q rs
                  (strip NL <$> lines) eq_refl Hget Htext Hloads Hq Hrs
                  eq_refl)
        as (st' & v & Hrun & _ & _ & Hverdict)
  end.
  exists st'. rewrite Hrun.
  destruct Hverdict as [[-> _]|[_ Hnone]]; [done|].
  destruct Hnone. exists body, a. split; [|done].
  apply list_elem_of_fmap. exists (body ++ NL).
  split; [|done]. symmetry. by apply strip_line.
Qed.

Lemma listed_alert_answers_unhealthy_witness :
  (return_status (test_world (answers valid_prometheus_alerts_impacting))
     test_clusterhealthz_instance).1
  = Return "unhealthy".
Proof.
  assert (valid_prometheus_alerts_impacting <> EmptyString) as Htext
    by discriminate.
  destruct impacting_decoded as (Hloads & Hq & Hrs & _ & a & Ha & Hname).
  destruct (listed_alert_answers_unhealthy
              (test_world (answers no_alerts))
              (test_world (answers valid_prometheus_alerts_impacting))
              default_prometheus_url "/srv/config/clusterhealthz.conf"
              valid_prometheus_alerts_impacting
              "KubernetesMasterDown" ["KubernetesMasterDown" ++ NL]
              (decoded valid_prometheus_alerts_impacting)
              (records_of (decoded valid_prometheus_alerts_impacting))
              test_clusterhealthz_instance
              eq_refl eq_refl (list_elem_of_here _ _) eq_refl eq_refl eq_refl
              Htext Hloads Hq Hrs
              (ex_intro _ a (conj (list_elem_of_lookup_2 _ _ _ Ha) Hname)))
    as (st' & Hrun).
  by rewrite Hrun.
Defined.

(** ** The root logger *)

Local Open Scope list_scope.

Lemma existsb_same_handler (h : handler) (hs : list handler) :
  existsb (same_handler h) hs = true <-> handler_id h ∈ handler_id <$> hs.
Proof.
  rewrite existsb_exists, list_elem_of_fmap. unfold same_handler. split.
  - intros (h' & Hin & Heq%Nat.eqb_eq). exists h'.
    split; [done | by apply list_elem_of_In].
  - intros (h' & Heq & Hin). exists h'.
    split; [by apply list_elem_of_In | by apply Nat.eqb_eq].
Qed.

Lemma removeHandler_middle (kept rest : list handler) (h : handler) :
  handler_id h ∉ handler_id <$> kept ->
  removeHandler h (kept ++ h :: rest) = kept ++ rest.
Proof.
  intros Hnotin. unfold removeHandler.
  assert (existsb (same_handler h) (kept ++ h :: rest) = true) as ->.
  { apply existsb_same_handler. rewrite fmap_app, fmap_cons.
    apply elem_of_app. right. apply list_elem_of_here. }
  induction kept as [|k kept IH]; simpl.
  - unfold same_handler. by rewrite Nat.eqb_refl.
  - rewrite fmap_cons, not_elem_of_cons in Hnotin.
    destruct Hnotin as [Hne Hnotin]. unfold same_handler at 1.
    apply Nat.eqb_neq in Hne. rewrite Hne. by rewrite (IH Hnotin).
Qed.

(** Removing a handler that is in the list shortens the list by one. *)
Lemma removeHandler_length (i : nat) (h : handler) (hs : list handler) :
  hs !! i = Some h -> S (length (removeHandler h hs)) = length hs.
Proof.
  intros Hi. unfold removeHandler.
  assert (existsb (same_handler h) hs = true) as Hin.
  { apply existsb_same_handler, list_elem_of_fmap. exists h.
    split; [done|]. by eapply list_elem_of_lookup_2. }
  rewrite Hin. clear Hi. revert Hin.
  induction hs as [|h' hs IH]; simpl; [done|].
  destruct (same_handler h h'); simpl; [done|].
  intros Hin. by rewrite IH.
Qed.

(** The loop has ended before its fuel: with the iterator at [i], a fuel of
    the number of items from [i] on is enough, and more fuel changes
    nothing. *)
Lemma remove_handlers_ended (fuel i : nat) (hs : list handler) :
  length hs <= fuel + i ->
  remove_handlers (S fuel) i hs = remove_handlers fuel i hs.
Proof.
  revert i hs. induction fuel as [|fuel IH]; intros i hs Hlength.
  - simpl. by rewrite lookup_ge_None_2.
  - change (remove_handlers (S (S fuel)) i hs)
      with (match hs !! i with
            | Some h => remove_handlers (S fuel) (S i) (removeHandler h hs)
            | None => hs
            end).
    simpl. destruct (hs !! i) as [h|] eqn:Hi; [|done].
    apply IH. pose proof (removeHandler_length i h hs Hi). lia.
Qed.

(** With the iterator behind [kept], the loop removes every other handler of
    what is ahead: the one the iterator is at goes, the next one moves into
    its place and is passed over. *)
Lemma remove_handlers_skips (fuel : nat) (rest kept : list handler) :
  length rest <= fuel ->
  NoDup (handler_id <$> (kept ++ rest)) ->
  remove_handlers fuel (length kept) (kept ++ rest) = kept ++ odd_items rest.
Proof.
  revert rest kept. induction fuel as [|fuel IH]; intros rest kept Hfuel Hnodup.
  - destruct rest; simpl in Hfuel; [done | lia].
  - simpl. destruct rest as [|h [|s rest]].
    + rewrite lookup_ge_None_2; [done|]. rewrite length_app. simpl. lia.
    + rewrite list_lookup_middle by done.
      rewrite fmap_app, fmap_cons in Hnodup.
      apply NoDup_app in Hnodup as (_ & Hdisjoint & _).
      rewrite removeHandler_middle.
      * simpl. rewrite app_nil_r. destruct fuel; [done|]. simpl.
        rewrite lookup_ge_None_2; [done | lia].
      * intros Hin. apply (Hdisjoint _ Hin), list_elem_of_here.
    + rewrite list_lookup_middle by done.
      assert (handler_id h ∉ handler_id <$> kept) as Hnotin.
      { rewrite fmap_app, fmap_cons in Hnodup.
        apply NoDup_app in Hnodup as (_ & Hdisjoint & _).
        intros Hin. apply (Hdisjoint _ Hin), list_elem_of_here. }
      rewrite removeHandler_middle by done.
      replace (kept ++ s :: rest) with ((kept ++ [s]) ++ rest)
        by by rewrite <- app_assoc.
      replace (S (length kept)) with (length (kept ++ [s]))
        by (rewrite length_app; simpl; lia).
      rewrite IH; [by rewrite <- app_assoc | simpl in Hfuel; lia|].
      rewrite <- app_assoc. simpl.
      rewrite !fmap_app, !fmap_cons in Hnodup |- *.
      apply NoDup_app in Hnodup as (Hkept & Hdisjoint & Hrest).
      apply NoDup_cons in Hrest as [_ Hrest].
      apply NoDup_app. split; [done|]. split; [|done].
      intros x Hx Hin. apply (Hdisjoint x Hx). by apply list_elem_of_further.
Qed.

(** [set_logger], by the handlers the root logger has. *)
Lemma set_logger_eq (log_level : value) (r : root) :
  distinct_handlers r ->
  set_logger log_level r
  = basicConfig log_format log_level
      (Root (odd_items (handlers r)) (root_level r) (created r)).
Proof.
  intros [Hnodup _]. unfold set_logger. cbv zeta.
  pose proof (remove_handlers_skips (length (handlers r)) (handlers r) []
                (Nat.le_refl _) Hnodup) as Hloop.
  simpl in Hloop. by rewrite Hloop.
Qed.

Lemma odd_items_length {A} (l : list A) :
  length (odd_items l) = length l / 2.
Proof.
  remember (length l) as n eqn:Hn. revert l Hn.
  induction n as [n IH] using lt_wf_ind. intros l ->.
  destruct l as [|a [|b l]]; [done | done|].
  cbn [odd_items length]. rewrite (IH (length l)); [|simpl; lia | done].
  replace (S (S (length l))) with (length l + 1 * 2) by lia.
  rewrite Nat.div_add by done. lia.
Qed.

Lemma root_with_distinct (n : nat) : distinct_handlers (root_with n).
Proof.
  unfold root_with. split; simpl.
  - rewrite <- list_fmap_compose.
    rewrite (list_fmap_ext _ id (seq 0 n)) by done.
    rewrite list_fmap_id. apply NoDup_seq.
  - intros h (i & -> & Hi)%list_elem_of_fmap. simpl.
    apply elem_of_seq in Hi. lia.
Qed.

(** X18.  [set_logger] does not clear the root logger: of two or more
    handlers, the loop removes those at the even places and leaves those at
    the odd places, half of them rounded down; and since handlers are left,
    [basicConfig] does nothing: no format is installed and the level is not
    set, whatever [log_level] is. *)
Theorem set_logger_leaves_every_other_handler (log_level : value) (r : root) :
  distinct_handlers r ->
  2 <= length (handlers r) ->
  set_logger log_level r
  = (Return tt, Root (odd_items (handlers r)) (root_level r) (created r))
  /\ length (odd_items (handlers r)) = length (handlers r) / 2
  /\ odd_items (handlers r) <> [].
Proof.
  intros Hdistinct Hlength. rewrite (set_logger_eq _ _ Hdistinct).
  unfold basicConfig. cbn [handlers].
  destruct (handlers r) as [|h [|h' hs]]; simpl in Hlength; [lia | lia|].
  split; [done|]. split; [apply odd_items_length | done].
Qed.

Lemma set_logger_leaves_every_other_handler_witness :
  set_logger (VStr "INFO") (root_with 5)
  = (Return tt, Root [Handler 1 None; Handler 3 None] 30 5).
Proof.
  pose proof (root_with_distinct 5) as Hdistinct.
  assert (2 <= length (handlers (root_with 5))) as Hlength
    by (vm_compute; lia).
  destruct (set_logger_leaves_every_other_handler (VStr "INFO") (root_with 5)
              Hdistinct Hlength) as [Hrun _].
  rewrite Hrun. reflexivity.
Defined.

(** X19.  On a root logger with at most one handler and with a level that
    [logging] knows, [set_logger] leaves exactly one handler, a new one with
    the format, and sets the level. *)
Theorem set_logger_configures (log_level : value) (z : Z) (r : root) :
  distinct_handlers r ->
  length (handlers r) <= 1 ->
  checkLevel log_level = Return z ->
  set_logger log_level r
  = (Return tt,
     Root [Handler (created r) (Some log_format)] z (S (created r))).
Proof.
  intros Hdistinct Hlength Hlevel. rewrite (set_logger_eq _ _ Hdistinct).
  unfold basicConfig. cbn [handlers].
  assert (odd_items (handlers r) = []) as ->.
  { destruct (handlers r) as [|h [|h' hs]]; simpl in Hlength; [done | done | lia]. }
  cbn [length Nat.eqb addHandler existsb app handlers root_level created].
  rewrite Hlevel. by destruct log_level.
Qed.

Lemma set_logger_configures_witness :
  set_logger (VStr "INFO") (root_with 1)
  = (Return tt, Root [Handler 1 (Some log_format)] 20 2).
Proof.
  apply (set_logger_configures (VStr "INFO") 20 (root_with 1)).
  - apply root_with_distinct.
  - vm_compute. lia.
  - reflexivity.
Defined.

(** X20.  With a level that [logging] does not know, [set_logger] raises,
    but only after it has removed the handler there was and installed the
    new one: the root logger is left with the new handler and its old
    level. *)
Theorem set_logger_unknown_level (log_level : value) (e : exn) (r : root) :
  distinct_handlers r ->
  length (handlers r) <= 1 ->
  log_level <> VNone ->
  checkLevel log_level = Raise e ->
  set_logger log_level r
  = (Raise e,
     Root [Handler (created r) (Some log_format)] (root_level r)
       (S (created r))).
Proof.
  intros Hdistinct Hlength Hnone Hlevel. rewrite (set_logger_eq _ _ Hdistinct).
  unfold basicConfig. cbn [handlers].
  assert (odd_items (handlers r) = []) as ->.
  { destruct (handlers r) as [|h [|h' hs]]; simpl in Hlength; [done | done | lia]. }
  cbn [length Nat.eqb addHandler existsb app handlers root_level created].
  rewrite Hlevel. by destruct log_level.
Qed.

Lemma set_logger_unknown_level_witness :
  set_logger (VStr "info") (root_with 0)
  = (Raise (OtherException "ValueError"),
     Root [Handler 0 (Some log_format)] 30 1).
Proof.
  apply (set_logger_unknown_level (VStr "info") _ (root_with 0)).
  - apply root_with_distinct.
  - vm_compute. lia.
  - discriminate.
  - reflexivity.
Defined.

Lemma odd_items_sublist {A} (l : list A) : odd_items l `sublist_of` l.
Proof.
  remember (length l) as n eqn:Hn. revert l Hn.
  induction n as [n IH] using lt_wf_ind. intros l Hn.
  destruct l as [|a [|b l]]; simpl in *; subst.
  - constructor.
  - apply sublist_nil_l.
  - apply sublist_cons, sublist_skip. apply (IH (length l)); [lia | done].
Qed.

(** [set_logger] keeps the handlers of the root logger distinct objects,
    all created already, whatever its argument and however it ends. *)
Lemma set_logger_keeps_handlers_distinct (log_level : value) (r : root) :
  distinct_handlers r -> distinct_handlers (set_logger log_level r).2.
Proof.
  intros Hdistinct. rewrite (set_logger_eq _ _ Hdistinct).
  destruct Hdistinct as [Hnodup Hcreated].
  unfold basicConfig. cbn [handlers root_level created].
  destruct (odd_items (handlers r)) as [|h hs] eqn:Hodd.
  - assert (distinct_handlers
              (Root [Handler (created r) (Some log_format)] (root_level r)
                 (S (created r)))) as Hnew.
    { split; simpl.
      - apply NoDup_singleton.
      - intros h ->%list_elem_of_singleton. simpl. lia. }
    cbn [length Nat.eqb addHandler existsb app].
    destruct log_level; try done; simpl;
      try (destruct (nameToLevel s)); done.
  - cbn [length Nat.eqb]. simpl. rewrite <- Hodd. split; simpl.
    + eapply sublist_NoDup; [done|]. apply fmap_sublist, odd_items_sublist.
    + intros h' Hh'. apply Hcreated.
      eapply elem_of_sublist; [done|]. apply odd_items_sublist.
Qed.

(** X21.  Called again after it has configured the root logger, [set_logger]
    replaces the handler it installed by a new one with the same format and
    sets the same level: the root logger never holds more than the one
    handler. *)
Theorem set_logger_again (log_level : value) (z : Z) (r : root) :
  distinct_handlers r ->
  length (handlers r) <= 1 ->
  checkLevel log_level = Return z ->
  set_logger log_level (set_logger log_level r).2
  = (Return tt,
     Root [Handler (S (created r)) (Some log_format)] z (S (S (created r)))).
Proof.
  intros Hdistinct Hlength Hlevel.
  assert (set_logger log_level r
          = (Return tt,
             Root [Handler (created r) (Some log_format)] z (S (created r))))
    as Hfirst.
  { rewrite (set_logger_eq _ _ Hdistinct).
    unfold basicConfig. cbn [handlers].
    assert (odd_items (handlers r) = []) as ->.
    { destruct (handlers r) as [|h [|h' hs]]; simpl in Hlength;
        [done | done | lia]. }
    cbn [length Nat.eqb addHandler existsb app handlers root_level created].
    rewrite Hlevel. by destruct log_level. }
  rewrite Hfirst. cbn [snd]. rewrite set_logger_eq.
  - unfold basicConfig. simpl. rewrite Hlevel. by destruct log_level.
  - split; simpl.
    + apply NoDup_singleton.
    + intros h ->%list_elem_of_singleton. simpl. lia.
Qed.

Lemma set_logger_again_witness :
  set_logger (VStr "INFO") (set_logger (VStr "INFO") (root_with 0)).2
  = (Return tt, Root [Handler 1 (Some log_format)] 20 2).
Proof.
  apply (set_logger_again (VStr "INFO") 20 (root_with 0)).
  - apply root_with_distinct.
  - vm_compute. lia.
  - reflexivity.
Defined.
